(** * kuma-net: iptables table builder and eBPF loader glue

    A shallow embedding of [iptables/builder/table] (the [TableBuilder] and
    [NatTable] renderers) and of [ebpf/ebpf.go] (the pod-config record, the
    program loader loop and the BPF file-system bootstrap), with the
    properties of the specification stated over them. *)

From Stdlib Require Import List String Ascii ZArith Lia Bool Arith.
From Stdlib Require Import Numbers.DecimalString.
Import ListNotations.

Open Scope list_scope.
Open Scope string_scope.

Set Warnings "-register-all".

(** ** Go strings *)

Module GoString.

(** The line break, Go's ["\n"]. *)
Definition nl : string := String "010"%char "".

(** The horizontal tab, Go's ["\t"]. *)
Definition tab : string := String "009"%char "".

(** [strings.Join(elems, sep)]. *)
Definition Join (elems : list string) (sep : string) : string :=
  String.concat sep elems.

(** [len(s) > 0] on a slice. *)
Definition nonempty {A} (l : list A) : bool :=
  match l with [] => false | _ :: _ => true end.

(** [strings.Split(s, "\n")]: the maximal newline-free pieces of [s]. *)
Fixpoint SplitLines (s : string) : list string :=
  match s with
  | EmptyString => [""]
  | String c r =>
      if Ascii.eqb c "010"%char then "" :: SplitLines r
      else match SplitLines r with
           | [] => [String c ""]
           | l :: ls => String c l :: ls
           end
  end.

(** Does the string contain a line break? *)
Fixpoint hasNewline (s : string) : bool :=
  match s with
  | EmptyString => false
  | String c r => Ascii.eqb c "010"%char || hasNewline r
  end.

(** [strings.HasPrefix(s, "#")]. *)
Definition isComment (s : string) : bool :=
  match s with
  | String c _ => Ascii.eqb c "#"%char
  | EmptyString => false
  end.

Definition isBlank (s : string) : bool :=
  match s with EmptyString => true | _ => false end.

(** [fmt.Sprintf("%d", z)]. *)
Definition itoa (z : Z) : string := NilZero.string_of_int (Z.to_int z).

End GoString.

Import GoString.

(** ** Package [table] *)

Module Table.

(** Package [chain] and the flag table of package [consts] are imported
    by [table]; they enter as an interface: the chain type with the two
    methods [Build] and [String] that [TableBuilder.Build] calls, the
    constructor [NewChain] that [Nat] calls, and the map [Flags]
    ([map[string]map[bool]string], indexed by directive and mode). *)
Class ChainAPI : Type := {
  ChainBuilder : Type;
  chain_Build : ChainBuilder -> bool -> list string;
  chain_String : ChainBuilder -> string;
  NewChain : string -> ChainBuilder;
  Flags : string -> bool -> string
}.

Section Builder.

Context `{ChainAPI}.

Record TableBuilder : Type := mkTableBuilder {
  name : string;
  newChains : list ChainBuilder;
  chains : list ChainBuilder
}.

(** The declaration line of one custom chain:
    [fmt.Sprintf("%s %s", Flags["new-chain"][verbose], c.String())]. *)
Definition newChainLine (verbose : bool) (c : ChainBuilder) : string :=
  Flags "new-chain" verbose ++ " " ++ chain_String c.

(** The two [for ... range] loops of [Build]: the values of
    [newChainLines] and [ruleLines] when the second loop ends. *)
Definition collectLines (b : TableBuilder) (verbose : bool)
  : list string * list string :=
  let ruleLines :=
    fold_left
      (fun ruleLines c => (ruleLines ++ chain_Build c verbose)%list)
      (chains b) [] in
  fold_left
    (fun acc c =>
       let '(newChainLines, ruleLines) := acc in
       ((newChainLines ++ [newChainLine verbose c])%list,
        (ruleLines ++ chain_Build c verbose)%list))
    (newChains b) ([], ruleLines).

(** Everything after the loops: the comment lines of verbose mode and
    the assembly of the segments. *)
Definition assemble (tableLine : string)
           (newChainLines ruleLines : list string) (verbose : bool)
  : string :=
  let newChainLines :=
    if verbose && nonempty newChainLines
    then "# Custom Chains:" :: newChainLines else newChainLines in
  let ruleLines :=
    if verbose && nonempty ruleLines
    then "# Rules:" :: ruleLines else ruleLines in
  let lines := [tableLine] in
  let newChains := Join newChainLines nl in
  let lines :=
    if String.eqb newChains "" then lines
    else (lines ++ [newChains])%list in
  let rules := Join ruleLines nl in
  let lines :=
    if String.eqb rules "" then lines else (lines ++ [rules])%list in
  let lines := (lines ++ ["COMMIT"])%list in
  if verbose then Join lines (nl ++ nl) else Join lines nl.

(** [func (b *TableBuilder) Build(verbose bool) string]. *)
Definition TableBuilder_Build (b : TableBuilder) (verbose : bool)
  : string :=
  let tableLine := "* " ++ name b in
  let '(newChainLines, ruleLines) := collectLines b verbose in
  assemble tableLine newChainLines ruleLines verbose.

Record NatTable : Type := mkNatTable {
  prerouting : ChainBuilder;
  input : ChainBuilder;
  output : ChainBuilder;
  postrouting : ChainBuilder;
  (* custom chains *)
  nat_chains : list ChainBuilder
}.

(** [func (t *NatTable) AddChain(chain) *NatTable]: the table after the
    call (the method returns its receiver). *)
Definition NatTable_AddChain (t : NatTable) (chain : ChainBuilder)
  : NatTable :=
  {| prerouting := prerouting t;
     input := input t;
     output := output t;
     postrouting := postrouting t;
     nat_chains := (nat_chains t ++ [chain])%list |}.

(** The [TableBuilder] literal that [NatTable.Build] allocates. *)
Definition natBuilder (t : NatTable) : TableBuilder :=
  {| name := "nat";
     newChains := nat_chains t;
     chains := [prerouting t; input t; output t; postrouting t] |}.

(** [func (t *NatTable) Build(verbose bool) string]. *)
Definition NatTable_Build (t : NatTable) (verbose : bool) : string :=
  TableBuilder_Build (natBuilder t) verbose.

(** [func Nat() *NatTable]. *)
Definition Nat : NatTable :=
  {| prerouting := NewChain "PREROUTING";
     input := NewChain "INPUT";
     output := NewChain "OUTPUT";
     postrouting := NewChain "POSTROUTING";
     nat_chains := [] |}.

(** [AddChain] has a pointer receiver and stores the grown slice: a call
    is a transition of the pointed-to table that also yields the method's
    result. *)
Definition Method (A : Type) : Type := NatTable -> A * NatTable.

Definition callAddChain (chain : ChainBuilder) : Method unit :=
  fun t => (tt, NatTable_AddChain t chain).

(** The group of declaration lines and the group of rule lines that
    [NatTable.Build] hands to the assembly. *)
Definition declarationGroup (t : NatTable) (verbose : bool)
  : list string := fst (collectLines (natBuilder t) verbose).

Definition ruleGroup (t : NatTable) (verbose : bool) : list string :=
  snd (collectLines (natBuilder t) verbose).

(** The parts of a rendered block around its two groups: the break
    between two segments, what stands between the table line and the
    first declaration line, and what stands between the last
    declaration line (or the table line) and the first rule line. *)
Definition segmentBreak (verbose : bool) : string :=
  if verbose then nl ++ nl else nl.

Definition beforeDeclarations (verbose : bool) (decls : list string)
  : string :=
  if nonempty decls
  then segmentBreak verbose
       ++ (if verbose then "# Custom Chains:" ++ nl else "")
  else "".

Definition beforeRules (verbose : bool) (rules : list string)
  : string :=
  if (if verbose then nonempty rules
      else negb (String.eqb (Join rules nl) ""))
  then segmentBreak verbose ++ (if verbose then "# Rules:" ++ nl else "")
  else "".

(** The lines of a block whose segments are separated by one line
    break, as compact mode lays them out. *)
Definition compactLayout (tableLine : string)
           (decls rules : list string) : string :=
  Join (tableLine :: decls ++ rules ++ ["COMMIT"])%list nl.

(** The lines of a block as verbose mode lays them out: a blank line
    before every segment after the first, a comment line heading each
    group that has lines. *)
Definition annotatedSegment (title : string) (ls : list string)
  : list string :=
  match ls with
  | [] => []
  | _ :: _ => "" :: title :: ls
  end.

Definition annotatedLines (tableLine : string)
           (decls rules : list string) : list string :=
  (tableLine :: annotatedSegment "# Custom Chains:" decls
     ++ annotatedSegment "# Rules:" rules ++ [""; "COMMIT"])%list.

(** Reading a rendered block back: the lines that are neither comment
    lines nor the blank lines that separate segments, joined again. *)
Definition stripAnnotations (out : string) : string :=
  Join (filter (fun l => negb (isComment l) && negb (isBlank l))
               (SplitLines out)) nl.

(** A line that survives [stripAnnotations] as itself. *)
Definition plainLine (l : string) : bool :=
  negb (isBlank l) && negb (isComment l) && negb (hasNewline l).

End Builder.

End Table.

(** ** Package [ebpf] *)

Module Ebpf.

(** *** The records exchanged with the loader programs *)

Definition MaxItemLen : nat := 10.

Definition LocalPodIPSPinnedMapPathRelativeToBPFFS : string :=
  "/tc/globals/local_pod_ips".
Definition MarkPodIPSPinnedMapPathRelativeToBPFFS : string :=
  "/mark_pod_ips".

(** The Go types the two struct declarations are built from. *)
Inductive GoType : Type :=
| Tuint8
| Tuint16
| Tuint32
| Tarray (len : nat) (elem : GoType)
| Tstruct (fields : list (string * GoType)).

(** [type Cidr struct]. *)
Definition Cidr : GoType :=
  Tstruct [ ("Net", Tuint32);          (* network order *)
            ("Mask", Tuint8);
            ("_", Tarray 3 Tuint8) ].  (* pad *)

(** [type PodConfig struct]. *)
Definition PodConfig : GoType :=
  Tstruct [ ("StatusPort", Tuint16);
            ("_", Tuint16);            (* pad *)
            ("ExcludeOutRanges", Tarray MaxItemLen Cidr);
            ("IncludeOutRanges", Tarray MaxItemLen Cidr);
            ("IncludeInPorts", Tarray MaxItemLen Tuint16);
            ("IncludeOutPorts", Tarray MaxItemLen Tuint16);
            ("ExcludeInPorts", Tarray MaxItemLen Tuint16);
            ("ExcludeOutPorts", Tarray MaxItemLen Tuint16) ].

(** [unsafe.Alignof]: an integer is aligned to its width, an array to its
    element, a struct to its widest field. *)
Fixpoint alignof (t : GoType) : nat :=
  match t with
  | Tuint8 => 1
  | Tuint16 => 2
  | Tuint32 => 4
  | Tarray _ elem => alignof elem
  | Tstruct fields =>
      (fix widest (fs : list (string * GoType)) : nat :=
         match fs with
         | [] => 1
         | (_, ft) :: rest => Nat.max (alignof ft) (widest rest)
         end) fields
  end.

(** The least multiple of [a] that is not below [n]. *)
Definition roundUp (n a : nat) : nat := ((n + a - 1) / a) * a.

(** [unsafe.Sizeof]: fields are laid out in declaration order, each at the
    next offset that its alignment admits ([lastzero] is the offset of the
    last field of size zero); a struct of nonzero size that ends in a field
    of size zero gets one more byte; the whole is rounded up to the
    alignment of the struct. *)
Fixpoint sizeof (t : GoType) : nat :=
  match t with
  | Tuint8 => 1
  | Tuint16 => 2
  | Tuint32 => 4
  | Tarray len elem => len * sizeof elem
  | Tstruct fields =>
      let '(o, lastzero) :=
        (fix place (off lastzero : nat) (fs : list (string * GoType))
           : nat * nat :=
           match fs with
           | [] => (off, lastzero)
           | (_, ft) :: rest =>
               let at_ := roundUp off (alignof ft) in
               place (at_ + sizeof ft)
                     (if (sizeof ft =? 0)%nat then at_ else lastzero)
                     rest
           end) 0 0 fields in
      roundUp (if (0 <? o)%nat && (o =? lastzero)%nat then S o else o)
              (alignof t)
  end.

(** [unsafe.Offsetof] of every field, with the field's name and size. *)
Fixpoint placeFields (off : nat) (fs : list (string * GoType))
  : list (string * nat * nat) :=
  match fs with
  | [] => []
  | (fname, ft) :: rest =>
      let at_ := roundUp off (alignof ft) in
      (fname, at_, sizeof ft) :: placeFields (at_ + sizeof ft) rest
  end.

Definition layout (t : GoType) : list (string * nat * nat) :=
  match t with
  | Tstruct fields => placeFields 0 fields
  | _ => []
  end.

(** The length of every array field of a struct, by field name. *)
Definition arrayLens (t : GoType) : list (string * nat) :=
  match t with
  | Tstruct fields =>
      flat_map (fun f => match snd f with
                         | Tarray len _ => [(fst f, len)]
                         | _ => []
                         end) fields
  | _ => []
  end.

(** *** The operating system, as the package sees it *)

(** A Go [(T, error)] pair whose error is either nil or decides. *)
Inductive result (A : Type) : Type :=
| Ok (a : A)
| Err (msg : string).
Arguments Ok {A} a.
Arguments Err {A} msg.

(** What [cmd.Run()] leaves behind: [cmd.ProcessState] (nil when the
    process was never started, else its exit status, -1 for a process
    killed by a signal), the returned error, and what the process wrote
    to the two writers it was given. *)
Record ProcessResult : Type := mkProcessResult {
  processState : option Z;
  runError : option string;
  wroteStdout : string;
  wroteStderr : string
}.

(** [ExitCode] of [os.ProcessState]: the exit code of the exited
    process, or -1 if the process has not exited; the method accepts a
    nil receiver and answers -1 for it. *)
Definition ExitCode (p : option Z) : Z :=
  match p with
  | None => -1
  | Some status => status
  end.

(** [err != nil]. *)
Definition notNil (e : option string) : bool :=
  match e with
  | Some _ => true
  | None => false
  end.

(** [%v] of an [error]. *)
Definition fmtError (e : option string) : string :=
  match e with
  | None => "<nil>"
  | Some msg => msg
  end.

(** The services of the Go runtime and of the kernel: [path.Join],
    [os.Environ] and the execution of a command with its arguments and
    environment, over an opaque system state. *)
Class OS : Type := {
  Sys : Type;
  path_Join : list string -> string;
  os_Environ : Sys -> list string;
  cmd_Run : string -> list string -> list string -> Sys ->
            ProcessResult * Sys
}.

(** What the package does to the outside, in the order it does it. *)
Inductive Event : Type :=
| EvFlags (program : string)
| EvExec (path : string) (args env : list string)
| EvMount (source target fstype : string)
| EvMkdirAll (path : string).

Section Loader.

Context `{OS}.

(** The system, the two writers of the configuration
    ([cfg.RuntimeStdout], [cfg.RuntimeStderr]: what has been written
    to each) and the log of calls that left the package. *)
Record World : Type := mkWorld {
  sys : Sys;
  stdout : string;
  stderr : string;
  trace : list Event
}.

Definition M (A : Type) : Type := World -> A * World.

Definition ret {A} (a : A) : M A := fun w => (a, w).

Definition bind {A B} (m : M A) (k : A -> M B) : M B :=
  fun w => let '(a, w') := m w in k a w'.

Notation "x <- m ;; k" := (bind m (fun x => k))
  (at level 61, m at next level, right associativity).
Notation "m ;;; k" := (bind m (fun _ => k))
  (at level 61, right associativity).

(** [_, _ = stdout.Write([]byte(s))]. *)
Definition writeStdout (s : string) : M unit :=
  fun w => (tt, {| sys := sys w; stdout := stdout w ++ s;
                   stderr := stderr w; trace := trace w |}).

(** [cmd.Run()] with [cmd.Env], [cmd.Stdout] and [cmd.Stderr] set. *)
Definition runCommand (cmdToExec : string) (args envVars : list string)
  : M ProcessResult :=
  fun w =>
    let env := (os_Environ (sys w) ++ envVars)%list in
    let '(r, s') := cmd_Run cmdToExec args env (sys w) in
    (r, {| sys := s';
           stdout := stdout w ++ wroteStdout r;
           stderr := stderr w ++ wroteStderr r;
           trace := (trace w ++ [EvExec cmdToExec args env])%list |}).

(** [func run(cmdToExec, args, envVars, stdout, stderr) error]. *)
Definition run (cmdToExec : string) (args envVars : list string)
  : M (option string) :=
  writeStdout ("Running: " ++ Join envVars " " ++ " " ++ cmdToExec
               ++ " " ++ Join args " " ++ nl) ;;;
  r <- runCommand cmdToExec args envVars ;;
  let code := ExitCode (processState r) in
  if negb (code =? 0)%Z || notNil (runError r)
  then ret (Some ("unexpected exit code: " ++ itoa code ++ ", err: "
                  ++ fmtError (runError r)))
  else writeStdout nl ;;; ret None.

(** [type Program struct]: [Flags] is a closure; it may consult and
    change the system. *)
Record Program : Type := mkProgram {
  Name : string;
  ProgramFlags : Sys -> result (list string) * Sys
}.

(** The part of [config.Config] the loader reads. *)
Record Config : Type := mkConfig {
  ProgramsSourcePath : string
}.

(** [p.Flags()]. *)
Definition callFlags (p : Program) : M (result (list string)) :=
  fun w =>
    let '(r, s') := ProgramFlags p (sys w) in
    (r, {| sys := s'; stdout := stdout w; stderr := stderr w;
           trace := (trace w ++ [EvFlags (Name p)])%list |}).

(** The [for _, p := range programs] loop, from a given [errs]. *)
Fixpoint loadLoop (programs : list Program) (cfg : Config)
         (errs : list string) : M (list string) :=
  match programs with
  | [] => ret errs
  | p :: rest =>
      r <- callFlags p ;;
      match r with
      | Err msg => loadLoop rest cfg (errs ++ [msg])%list
      | Ok flags =>
          e <- run (path_Join [ProgramsSourcePath cfg; Name p])
                   flags [] ;;
          match e with
          | Some msg => loadLoop rest cfg (errs ++ [msg])%list
          | None => loadLoop rest cfg errs
          end
      end
  end.

(** [func LoadAndAttachEbpfPrograms(programs, cfg) error]. *)
Definition LoadAndAttachEbpfPrograms (programs : list Program)
           (cfg : Config) : M (option string) :=
  errs <- loadLoop programs cfg [] ;;
  if nonempty errs
  then ret (Some ("loading and attaching bpf programs failed:" ++ nl
                  ++ Join errs (nl ++ tab)))
  else ret None.

(** The batch as the specification words it: one unit is one attempt,
    whose outcome is its failure message, if it fails ... *)
Definition attemptUnit (cfg : Config) (p : Program)
  : M (option string) :=
  r <- callFlags p ;;
  match r with
  | Err msg => ret (Some msg)
  | Ok flags => run (path_Join [ProgramsSourcePath cfg; Name p]) flags []
  end.

(** ... every unit is attempted, one after the other ... *)
Fixpoint attemptAll (cfg : Config) (programs : list Program)
  : M (list (option string)) :=
  match programs with
  | [] => ret []
  | p :: rest =>
      o <- attemptUnit cfg p ;;
      os <- attemptAll cfg rest ;;
      ret (o :: os)
  end.

(** ... and the failures are joined once all outcomes are in. *)
Definition failures (outcomes : list (option string)) : list string :=
  flat_map (fun o => match o with Some msg => [msg] | None => [] end)
           outcomes.

Definition joinedError (outcomes : list (option string))
  : option string :=
  match failures outcomes with
  | [] => None
  | msgs => Some ("loading and attaching bpf programs failed:" ++ nl
                  ++ Join msgs (nl ++ tab))
  end.

(** The programs whose [Flags] were called, in call order. *)
Definition flagsCalls (tr : list Event) : list string :=
  flat_map (fun e => match e with EvFlags n => [n] | _ => [] end) tr.

(** The commands that were run, in order. *)
Definition execCalls (tr : list Event) : list string :=
  flat_map (fun e => match e with EvExec c _ _ => [c] | _ => [] end) tr.

End Loader.

(** *** The BPF file system *)

(** What a path leads to: something that is not a directory, a directory
    with its entries in [os.ReadDir] order, or a directory that
    [os.ReadDir] fails on. *)
Inductive Node : Type :=
| File
| Dir (entries : list (string * Node))
| Unreadable (err : string).

(** [IsDir()] of a [FileInfo] or [DirEntry]. *)
Definition IsDir (n : Node) : bool :=
  match n with
  | File => false
  | Dir _ | Unreadable _ => true
  end.

(** [func isDirEmpty(dirPath string) (bool, error)], on what [dirPath]
    leads to; [path.Join(dirPath, entry.Name())] leads to the entry. *)
Fixpoint isDirEmpty (dir : Node) : bool * option string :=
  match dir with
  | File => (false, Some "not a directory")
  | Unreadable err => (false, Some err)
  | Dir entries =>
      (fix range (es : list (string * Node)) : bool * option string :=
         match es with
         | [] => (true, None)
         | (_, entry) :: rest =>
             if negb (IsDir entry) then (false, None)
             else
               let '(isEmpty, err) := isDirEmpty entry in
               if notNil err || negb isEmpty
               then (false, err)
               else range rest
         end) entries
  end.

(** The calls [InitBPFFSMaybe] makes: [os.Stat] of a path (an error, or
    what is there), [unix.Mount] and [os.MkdirAll] with the error each
    returns, if any. *)
Record Kernel : Type := mkKernel {
  os_Stat : string -> result Node;
  unix_Mount : string -> string -> string -> option string;
  os_MkdirAll : string -> option string
}.

Section Bootstrap.

Context `{OS}.

(** [func InitBPFFSMaybe(fsPath string) error], with the calls that
    change the system. *)
Definition InitBPFFSMaybe (k : Kernel) (fsPath : string)
  : option string * list Event :=
  match os_Stat k fsPath with
  | Err err => (Some err, [])
  | Ok stat =>
      if negb (IsDir stat)
      then (Some ("bpf fs path (" ++ fsPath ++ ") is not a directory"),
            [])
      else
        let '(isEmpty, err) := isDirEmpty stat in
        match err with
        | Some e =>
            (Some ("checking if BPF file system path is empty failed: "
                   ++ e), [])
        | None =>
            if negb isEmpty then (None, [])
            else
              let mount := EvMount "bpf" fsPath "bpf" in
              match unix_Mount k "bpf" fsPath "bpf" with
              | Some e =>
                  (Some ("mounting BPF file system failed: " ++ e),
                   [mount])
              | None =>
                  let globals := path_Join [fsPath; "tc"; "globals"] in
                  match os_MkdirAll k globals with
                  | Some e =>
                      (Some ("making directory for tc globals pinning failed: " ++ e),
                       [mount; EvMkdirAll globals])
                  | None => (None, [mount; EvMkdirAll globals])
                  end
              end
        end
  end.

End Bootstrap.

(** The words of the specification about a directory: it has no entry
    at all ... *)
Definition noEntries (n : Node) : bool :=
  match n with
  | Dir [] => true
  | _ => false
  end.

(** ... and, as [isDirEmpty] reads it: no entry at any depth is anything
    but a readable directory. *)
Fixpoint onlyDirectories (n : Node) : bool :=
  match n with
  | File => false
  | Unreadable _ => false
  | Dir entries =>
      (fix all (es : list (string * Node)) : bool :=
         match es with
         | [] => true
         | (_, entry) :: rest => onlyDirectories entry && all rest
         end) entries
  end.

(** Every directory of the tree can be read. *)
Fixpoint readable (n : Node) : bool :=
  match n with
  | File => true
  | Unreadable _ => false
  | Dir entries =>
      (fix all (es : list (string * Node)) : bool :=
         match es with
         | [] => true
         | (_, entry) :: rest => readable entry && all rest
         end) entries
  end.

(** *** IP addresses *)

(** What a call does: it returns a value, returns an error, or panics. *)
Inductive outcome (A : Type) : Type :=
| Returned (a : A)
| Failed (msg : string)
| Panicked.
Arguments Returned {A} a.
Arguments Failed {A} msg.
Arguments Panicked {A}.

(** [isZeros] of package [net]. *)
Definition isZeros (p : list Z) : bool := forallb (Z.eqb 0) p.

(** [To4] of [net.IP]: the 4-byte form of an IPv4 address (given in 4
    bytes, or in 16 bytes with the prefix of an IPv4-mapped address), nil
    for any other slice. *)
Definition To4 (ip : list Z) : option (list Z) :=
  if (List.length ip =? 4)%nat then Some ip
  else if (List.length ip =? 16)%nat && isZeros (firstn 10 ip)
          && (nth 10 ip 0 =? 255)%Z && (nth 11 ip 0 =? 255)%Z
       then Some (skipn 12 ip)
       else None.

(** [ip[i] = 0]; an index outside the slice panics. *)
Definition clearByte (ip : list Z) (i : nat) : option (list Z) :=
  if (i <? List.length ip)%nat
  then Some (firstn i ip ++ 0%Z :: skipn (S i) ip)%list
  else None.

(** [for ; i < 12; i++ { ip[i] = 0 }], with [count] rounds to go. *)
Fixpoint clearBytes (count i : nat) (ip : list Z) : option (list Z) :=
  match count with
  | O => Some ip
  | S count' =>
      match clearByte ip i with
      | None => None
      | Some ip' => clearBytes count' (S i) ip'
      end
  end.

Section Addresses.

(** [net.ParseIP]: nil, or the bytes of the address. *)
Variable ParseIP : string -> option (list Z).

(** [func ipStrToPtr(ipstr string) (unsafe.Pointer, error)]; the pointer
    is given as the bytes it points to, those of [ip] from [ip[0]] on. *)
Definition ipStrToPtr (ipstr : string) : outcome (list Z) :=
  match ParseIP ipstr with
  | None => Failed ("error parse ip: " ++ ipstr)
  | Some ip =>
      let cleared :=
        match To4 ip with
        | Some _ => clearBytes 12 0 ip   (* ipv4, we need to clear the bytes *)
        | None => Some ip
        end in
      match cleared with
      | None => Panicked
      | Some [] => Panicked
      | Some bytes => Returned bytes
      end
  end.

End Addresses.

End Ebpf.

(** ** [Build] on the store *)

Module TableStore.

Import Table.

(** The arrays of strings behind the slices, by address; [next] is the
    address the next allocation gets. *)
Record Heap : Type := mkHeap {
  cells : nat -> list string;
  next : nat
}.

(** A [[]string]: the array it points into, where it starts there, its
    length and its capacity.  The nil slice has length and capacity 0. *)
Record Slice : Type := mkSlice {
  array : nat;
  offset : nat;
  len : nat;
  cap : nat
}.

Definition nilSlice : Slice := mkSlice 0 0 0 0.

(** A statement: a transition of the store that yields a value. *)
Definition St (A : Type) : Type := Heap -> A * Heap.

Definition ret {A} (a : A) : St A := fun h => (a, h).

Definition bind {A B} (m : St A) (k : A -> St B) : St B :=
  fun h => let '(a, h') := m h in k a h'.

(** The elements of a slice. *)
Definition elems (h : Heap) (s : Slice) : list string :=
  firstn (len s) (skipn (offset s) (cells h (array s))).

Definition readS (s : Slice) : St (list string) :=
  fun h => (elems h s, h).

(** An array with [xs] copied into it from position [pos] on. *)
Definition overwrite (arr : list string) (pos : nat) (xs : list string)
  : list string :=
  (firstn pos arr ++ xs ++ skipn (pos + List.length xs) arr)%list.

(** The store with the array at [a] replaced. *)
Definition store (h : Heap) (a : nat) (arr : list string) : Heap :=
  {| cells := fun a' => if (a' =? a)%nat then arr else cells h a';
     next := next h |}.

(** A new array. *)
Definition allocate (arr : list string) : St nat :=
  fun h => (next h, {| cells := fun a' => if (a' =? next h)%nat then arr
                                          else cells h a';
                       next := S (next h) |}).

(** [[]string{x1, ..., xn}]. *)
Definition sliceLit (xs : list string) : St Slice :=
  fun h => let '(a, h') := allocate xs h in
           (mkSlice a 0 (List.length xs) (List.length xs), h').

(** The chains as [Build] meets them on the store, and the capacity the
    runtime picks when a slice must grow (from the old capacity and the
    length needed). *)
Class Runtime `{ChainAPI} : Type := {
  chain_BuildS : ChainBuilder -> bool -> St Slice;
  growslice : nat -> nat -> nat
}.

Section OnStore.

Context `{Runtime}.

(** [append(s, xs...)]: nothing to append gives [s] back; what fits into
    the capacity is written into the array of [s], behind its elements;
    otherwise the elements and [xs] go to a new array. *)
Definition appendS (s : Slice) (xs : list string) : St Slice :=
  fun h =>
    match xs with
    | [] => (s, h)
    | _ :: _ =>
        let n := len s + List.length xs in
        if (n <=? cap s)%nat
        then (mkSlice (array s) (offset s) n (cap s),
              store h (array s)
                    (overwrite (cells h (array s)) (offset s + len s) xs))
        else
          let newcap := Nat.max n (growslice (cap s) n) in
          let '(a, h') :=
            allocate (elems h s ++ xs ++ repeat "" (newcap - n))%list h in
          (mkSlice a 0 n newcap, h')
    end.

(** [for _, c := range b.chains], from a given [ruleLines]. *)
Fixpoint rangeChains (cs : list ChainBuilder) (verbose : bool)
         (ruleLines : Slice) : St Slice :=
  match cs with
  | [] => ret ruleLines
  | c :: rest =>
      bind (chain_BuildS c verbose) (fun rules =>
      bind (readS rules) (fun xs =>
      bind (appendS ruleLines xs) (fun ruleLines =>
      rangeChains rest verbose ruleLines)))
  end.

(** [for _, c := range b.newChains], from given [newChainLines] and
    [ruleLines]. *)
Fixpoint rangeNewChains (cs : list ChainBuilder) (verbose : bool)
         (newChainLines ruleLines : Slice) : St (Slice * Slice) :=
  match cs with
  | [] => ret (newChainLines, ruleLines)
  | c :: rest =>
      bind (appendS newChainLines [newChainLine verbose c])
           (fun newChainLines =>
      bind (chain_BuildS c verbose) (fun rules =>
      bind (readS rules) (fun xs =>
      bind (appendS ruleLines xs) (fun ruleLines =>
      rangeNewChains rest verbose newChainLines ruleLines))))
  end.

(** [if len(ls) > 0 { ls = append([]string{title}, ls...) }]. *)
Definition headed (title : string) (ls : Slice) : St Slice :=
  if (0 <? len ls)%nat
  then bind (sliceLit [title]) (fun lit =>
       bind (readS ls) (fun xs => appendS lit xs))
  else ret ls.

(** [if text != "" { lines = append(lines, text) }]. *)
Definition appendText (lines : Slice) (text : string) : St Slice :=
  if String.eqb text "" then ret lines else appendS lines [text].

(** [func (b *TableBuilder) Build(verbose bool) string], statement by
    statement. *)
Definition TableBuilder_BuildS (b : TableBuilder) (verbose : bool)
  : St string :=
  let tableLine := "* " ++ name b in
  bind (rangeChains (chains b) verbose nilSlice) (fun ruleLines =>
  bind (rangeNewChains (newChains b) verbose nilSlice ruleLines)
       (fun both =>
  let '(newChainLines, ruleLines) := both in
  bind (if verbose then headed "# Custom Chains:" newChainLines
        else ret newChainLines) (fun newChainLines =>
  bind (if verbose then headed "# Rules:" ruleLines
        else ret ruleLines) (fun ruleLines =>
  bind (sliceLit [tableLine]) (fun lines =>
  bind (readS newChainLines) (fun newChainElems =>
  bind (appendText lines (Join newChainElems nl)) (fun lines =>
  bind (readS ruleLines) (fun ruleElems =>
  bind (appendText lines (Join ruleElems nl)) (fun lines =>
  bind (appendS lines ["COMMIT"]) (fun lines =>
  bind (readS lines) (fun lineElems =>
  ret (if verbose then Join lineElems (nl ++ nl)
       else Join lineElems nl)))))))))))).

(** [func (t *NatTable) Build(verbose bool) string]. *)
Definition NatTable_BuildS (t : NatTable) (verbose : bool) : St string :=
  TableBuilder_BuildS (natBuilder t) verbose.

(** No array that [h] holds is changed in [h'], and none is lost. *)
Definition unchanged (h h' : Heap) : Prop :=
  next h <= next h' /\ forall a, a < next h -> cells h' a = cells h a.

(** A slice that [Build] owns: made after the store was [h0], starting
    at the head of its array, with the elements [xs]. *)
Definition local (h0 h : Heap) (s : Slice) (xs : list string) : Prop :=
  offset s = 0 /\ len s <= cap s /\ elems h s = xs
  /\ (0 < cap s ->
      next h0 <= array s /\ array s < next h
      /\ cap s <= List.length (cells h (array s))).

(** Two slices that do not share an array. *)
Definition apart (s t : Slice) : Prop :=
  0 < cap s -> 0 < cap t -> array s <> array t.

(** What the specification asks of a chain: its [Build] has no side
    effect (it may allocate) and yields the rule lines of the chain. *)
Definition chainsArePure : Prop :=
  forall c verbose h,
    unchanged h (snd (chain_BuildS c verbose h))
    /\ elems (snd (chain_BuildS c verbose h))
             (fst (chain_BuildS c verbose h))
       = chain_Build c verbose.

End OnStore.

End TableStore.

(** ** Concrete instances *)

Module Model.

Import Table Ebpf.

(** Modelled from the spec: package [chain] is not part of the sources
    at hand.  A Rule is "an immutable, opaque unit of ruleset text (one
    line of the destination ruleset)"; a Chain is "an ordered, named
    collection of Rules" that "exposes an ordered render of its rules",
    created with a name and no rules. *)
Record Chain : Type := mkChain {
  chainName : string;
  chainRules : list string
}.

(** Modelled from the spec: the flag table of package [consts] is not
    part of the sources at hand.  It is "a static mapping from semantic
    directive name to its two textual spellings (compact flag vs.
    verbose flag), indexed by the same boolean mode flag"; the two
    spellings of the directive are the ones iptables itself accepts. *)
Definition iptablesFlags (directive : string) (verbose : bool) : string :=
  if String.eqb directive "new-chain"
  then if verbose then "--new-chain" else "-N"
  else "".

#[export] Instance iptables : ChainAPI := {|
  ChainBuilder := Chain;
  chain_Build := fun c _ => chainRules c;
  chain_String := chainName;
  NewChain := fun n => {| chainName := n; chainRules := [] |};
  Flags := iptablesFlags
|}.

(** A table with one custom chain FOO that has no rule. *)
Definition fooTable : NatTable :=
  NatTable_AddChain Nat (NewChain "FOO").

(** A table whose PREROUTING chain jumps to its custom chain FOO. *)
Definition jumpTable : NatTable :=
  {| prerouting := {| chainName := "PREROUTING";
                      chainRules := ["-A PREROUTING -j FOO"] |};
     input := NewChain "INPUT";
     output := NewChain "OUTPUT";
     postrouting := NewChain "POSTROUTING";
     nat_chains := [ {| chainName := "FOO";
                        chainRules := ["-A FOO -j RETURN"] |} ] |}.

(** A table with rules in two built-in chains and no custom chain. *)
Definition builtinTable : NatTable :=
  {| prerouting := {| chainName := "PREROUTING";
                      chainRules := ["-A PREROUTING -p tcp -j REDIRECT"] |};
     input := NewChain "INPUT";
     output := {| chainName := "OUTPUT";
                  chainRules := ["-A OUTPUT -p tcp -j REDIRECT";
                                 "-A OUTPUT -j RETURN"] |};
     postrouting := NewChain "POSTROUTING";
     nat_chains := [] |}.

(** A system with three kinds of program: one that exits with status 1,
    one that cannot be started, and the ones that succeed.  The state
    counts the processes that ran. *)
Definition scriptedRun (cmd : string) (args env : list string) (s : nat)
  : ProcessResult * nat :=
  if String.eqb cmd "/progs/fails"
  then ({| processState := Some 1%Z;
           runError := Some "exit status 1";
           wroteStdout := "";
           wroteStderr := "boom" |}, S s)
  else if String.eqb cmd "/progs/missing"
  then ({| processState := None;
           runError := Some "fork/exec /progs/missing: no such file or directory";
           wroteStdout := "";
           wroteStderr := "" |}, s)
  else ({| processState := Some 0%Z;
           runError := None;
           wroteStdout := "ok";
           wroteStderr := "" |}, S s).

#[export] Instance scripted : OS := {|
  Sys := nat;
  path_Join := fun elems => Join elems "/";
  os_Environ := fun _ => ["PATH=/bin"];
  cmd_Run := scriptedRun
|}.

Definition freshWorld : World :=
  {| sys := 0; stdout := ""; stderr := ""; trace := [] |}.

Definition cfg : Config := {| ProgramsSourcePath := "/progs" |}.

Definition program (n : string) : Program :=
  {| Name := n; ProgramFlags := fun s => (Ok ["--bpffs"; "/sys/fs/bpf"], s) |}.

Definition badFlags (n : string) : Program :=
  {| Name := n; ProgramFlags := fun s => (Err "no cgroup2 mount", s) |}.

(** Three units of which the second fails. *)
Definition batch : list Program :=
  [program "mb_connect"; program "fails"; program "mb_bind"].

(** A kernel in which mounting and creating directories succeed and
    [fsPath] leads to [n]. *)
Definition kernelWith (n : Node) : Kernel :=
  {| os_Stat := fun _ => Ok n;
     unix_Mount := fun _ _ _ => None;
     os_MkdirAll := fun _ => None |}.

(** The mount point after an earlier bootstrap that pinned nothing:
    [tc/globals] and no file. *)
Definition bootstrapped : Node :=
  Dir [("tc", Dir [("globals", Dir [])])].

(** The mount point with a pinned map. *)
Definition pinned : Node :=
  Dir [("tc", Dir [("globals", Dir [("local_pod_ips", File)])])].

(** A table whose PREROUTING chain has one rule, the empty line. *)
Definition blankRuleTable : NatTable :=
  {| prerouting := {| chainName := "PREROUTING"; chainRules := [""] |};
     input := NewChain "INPUT";
     output := NewChain "OUTPUT";
     postrouting := NewChain "POSTROUTING";
     nat_chains := [ NewChain "FOO" ] |}.

(** A kernel in which [fsPath] leads to [n], mounting succeeds and the
    directories cannot be created. *)
Definition kernelNoMkdir (n : Node) : Kernel :=
  {| os_Stat := fun _ => Ok n;
     unix_Mount := fun _ _ _ => None;
     os_MkdirAll := fun _ => Some "permission denied" |}.

(** [net.ParseIP] on three texts: an IPv4 address, an IPv6 address, and
    anything else. *)
Definition parseSample (s : string) : option (list Z) :=
  if String.eqb s "10.0.0.1"
  then Some [0; 0; 0; 0; 0; 0; 0; 0; 0; 0; 255; 255; 10; 0; 0; 1]%Z
  else if String.eqb s "fd00::1"
  then Some [253; 0; 0; 0; 0; 0; 0; 0; 0; 0; 0; 0; 0; 0; 0; 1]%Z
  else None.

(** Modelled from the spec: a chain whose [Build] puts its rule lines
    into a new array, with room for two more, and changes nothing else;
    the runtime doubles the capacity of a slice that grows. *)
#[export] Instance freshArrays : TableStore.Runtime := {|
  TableStore.chain_BuildS := fun c _ h =>
    let '(a, h') :=
      TableStore.allocate (chainRules c ++ [""; ""])%list h in
    (TableStore.mkSlice a 0 (List.length (chainRules c))
                        (List.length (chainRules c) + 2), h');
  TableStore.growslice := fun old _ => 2 * old
|}.

(** A store that holds one array already. *)
Definition someStore : TableStore.Heap :=
  {| TableStore.cells := fun a => if (a =? 0)%nat then ["kept"; ""] else [];
     TableStore.next := 1 |}.

End Model.

(** ** Facts about strings and lines *)

Module StringFacts.

Lemma append_nil_r (s : string) : s ++ "" = s.
Proof. induction s as [|c s IH]; simpl; [reflexivity | now rewrite IH]. Qed.

Lemma append_assoc (s t u : string) : (s ++ t) ++ u = s ++ t ++ u.
Proof. induction s as [|c s IH]; simpl; [reflexivity | now rewrite IH]. Qed.

Lemma Join_cons2 (a b : string) (l : list string) (sep : string) :
  Join (a :: b :: l) sep = a ++ sep ++ Join (b :: l) sep.
Proof. reflexivity. Qed.

Lemma Join_cons (a : string) (l : list string) (sep : string) :
  l <> [] -> Join (a :: l) sep = a ++ sep ++ Join l sep.
Proof. destruct l; [congruence | reflexivity]. Qed.

Lemma Join_app (l1 l2 : list string) (sep : string) :
  l1 <> [] -> l2 <> [] ->
  Join (l1 ++ l2)%list sep = Join l1 sep ++ sep ++ Join l2 sep.
Proof.
  intros H1 H2. induction l1 as [|a [|b l] IH]; [congruence | |].
  - simpl app. now rewrite Join_cons.
  - change ((a :: b :: l) ++ l2)%list with (a :: (b :: l) ++ l2)%list.
    rewrite Join_cons by discriminate.
    rewrite IH by discriminate.
    rewrite Join_cons2. now rewrite !append_assoc.
Qed.

(** A line of a joined block sits in the block. *)
Lemma Join_nth (ls : list string) (sep : string) (i : nat) (d : string) :
  nth_error ls i = Some d -> exists a b, Join ls sep = a ++ d ++ b.
Proof.
  revert i. induction ls as [|x [|y l] IH]; intros i Hi.
  - destruct i; discriminate.
  - destruct i as [|[|i]]; try discriminate. injection Hi as <-.
    exists "", "". simpl. now rewrite append_nil_r.
  - destruct i as [|i].
    + injection Hi as <-. exists "", (sep ++ Join (y :: l) sep).
      reflexivity.
    + destruct (IH i Hi) as (a & b & E).
      exists (x ++ sep ++ a), b.
      rewrite Join_cons2, E. now rewrite !append_assoc.
Qed.

Lemma Join_blank_head (d : string) (l : list string) (sep : string) :
  isBlank d = false -> String.eqb (Join (d :: l) sep) "" = false.
Proof. destruct d; [discriminate|]. intros _. now destruct l. Qed.

Lemma SplitLines_line (s : string) :
  hasNewline s = false -> SplitLines s = [s].
Proof.
  induction s as [|c s IH]; simpl; [reflexivity|].
  intros Hs. apply orb_false_iff in Hs as [Hc Hs].
  now rewrite Hc, (IH Hs).
Qed.

Lemma SplitLines_break (s t : string) :
  hasNewline s = false -> SplitLines (s ++ nl ++ t) = s :: SplitLines t.
Proof.
  induction s as [|c s IH]; simpl; [reflexivity|].
  intros Hs. apply orb_false_iff in Hs as [Hc Hs].
  rewrite Hc. change (String "010" t) with (nl ++ t). now rewrite (IH Hs).
Qed.

(** Splitting undoes joining, for lines that hold no line break. *)
Lemma SplitLines_Join (ls : list string) :
  ls <> [] -> Forall (fun l => hasNewline l = false) ls ->
  SplitLines (Join ls nl) = ls.
Proof.
  induction ls as [|a [|b l] IH]; intros Hne Hall; [congruence | |].
  - apply SplitLines_line. now inversion Hall.
  - rewrite Join_cons2. inversion Hall as [|? ? Ha Hrest]; subst.
    rewrite SplitLines_break by assumption.
    now rewrite IH.
Qed.

Lemma filter_app_keep {A} (f : A -> bool) (l : list A) :
  Forall (fun x => f x = true) l -> filter f l = l.
Proof.
  induction 1 as [|x l Hx _ IH]; simpl; [reflexivity|].
  now rewrite Hx, IH.
Qed.

End StringFacts.

(** ** The table builder: properties *)

Module TableSpec.

Import Table StringFacts.

Section Facts.

Context `{ChainAPI}.

Lemma fold_rules (verbose : bool) (cs : list ChainBuilder)
      (init : list string) :
  fold_left (fun ruleLines c => (ruleLines ++ chain_Build c verbose)%list)
            cs init
  = (init ++ flat_map (fun c => chain_Build c verbose) cs)%list.
Proof.
  revert init. induction cs as [|c cs IH]; intros init; simpl.
  - now rewrite app_nil_r.
  - now rewrite IH, app_assoc.
Qed.

Lemma fold_both (verbose : bool) (cs : list ChainBuilder)
      (decls rules : list string) :
  fold_left
    (fun acc c =>
       let '(newChainLines, ruleLines) := acc in
       ((newChainLines ++ [newChainLine verbose c])%list,
        (ruleLines ++ chain_Build c verbose)%list))
    cs (decls, rules)
  = ((decls ++ map (newChainLine verbose) cs)%list,
     (rules ++ flat_map (fun c => chain_Build c verbose) cs)%list).
Proof.
  revert decls rules. induction cs as [|c cs IH]; intros decls rules.
  - simpl. now rewrite !app_nil_r.
  - simpl. rewrite IH. now rewrite <- !app_assoc.
Qed.

(** The loops of [Build] in closed form. *)
Lemma collectLines_eq (b : TableBuilder) (verbose : bool) :
  collectLines b verbose
  = (map (newChainLine verbose) (newChains b),
     (flat_map (fun c => chain_Build c verbose) (chains b)
      ++ flat_map (fun c => chain_Build c verbose) (newChains b))%list).
Proof.
  unfold collectLines. now rewrite fold_rules, fold_both.
Qed.

Lemma Build_assemble (t : NatTable) (verbose : bool) :
  NatTable_Build t verbose
  = assemble "* nat" (declarationGroup t verbose) (ruleGroup t verbose)
             verbose.
Proof.
  unfold NatTable_Build, TableBuilder_Build, declarationGroup, ruleGroup.
  now destruct (collectLines (natBuilder t) verbose).
Qed.

Lemma attached (t : NatTable) (cs : list ChainBuilder) :
  nat_chains (fold_left NatTable_AddChain cs t)
  = (nat_chains t ++ cs)%list
  /\ prerouting (fold_left NatTable_AddChain cs t) = prerouting t
  /\ input (fold_left NatTable_AddChain cs t) = input t
  /\ output (fold_left NatTable_AddChain cs t) = output t
  /\ postrouting (fold_left NatTable_AddChain cs t) = postrouting t.
Proof.
  revert t. induction cs as [|c cs IH]; intros t; simpl.
  - now rewrite app_nil_r.
  - destruct (IH (NatTable_AddChain t c)) as (E & ? & ? & ? & ?).
    rewrite E. simpl. now rewrite <- app_assoc.
Qed.

Lemma newChainLine_not_blank (verbose : bool) (c : ChainBuilder) :
  isBlank (newChainLine verbose c) = false.
Proof.
  unfold newChainLine. now destruct (Flags "new-chain" verbose).
Qed.

(** Where the two groups lie in the assembled block. *)
Lemma assemble_blocks (tableLine : string) (decls rules : list string)
      (verbose : bool) :
  Forall (fun d => isBlank d = false) decls ->
  assemble tableLine decls rules verbose
  = tableLine ++ beforeDeclarations verbose decls ++ Join decls nl
    ++ beforeRules verbose rules ++ Join rules nl
    ++ segmentBreak verbose ++ "COMMIT".
Proof.
  intros Hd. unfold assemble, beforeDeclarations, beforeRules.
  destruct verbose; cbn [andb segmentBreak].
  - destruct decls as [|d decls]; destruct rules as [|r rules];
      cbn [nonempty]; rewrite ?Join_cons2.
    + reflexivity.
    + remember (Join (r :: rules) nl) as R. cbn.
      now rewrite ?append_assoc.
    + remember (Join (d :: decls) nl) as D. cbn.
      now rewrite ?append_assoc.
    + remember (Join (d :: decls) nl) as D.
      remember (Join (r :: rules) nl) as R. cbn.
      now rewrite ?append_assoc.
  - destruct decls as [|d decls]; cbn [nonempty].
    + change (Join [] nl) with "". cbn [String.eqb].
      destruct (String.eqb (Join rules nl) "") eqn:E.
      * apply String.eqb_eq in E. rewrite E. reflexivity.
      * remember (Join rules nl) as R. cbn. now rewrite ?append_assoc.
    + inversion Hd as [|? ? Hblank _]; subst.
      rewrite (Join_blank_head d decls nl Hblank).
      remember (Join (d :: decls) nl) as D.
      destruct (String.eqb (Join rules nl) "") eqn:E.
      * apply String.eqb_eq in E. rewrite E. cbn.
        now rewrite ?append_assoc.
      * remember (Join rules nl) as R. cbn. now rewrite ?append_assoc.
Qed.

Lemma assemble_compact (tableLine : string)
      (decls rules : list string) :
  Forall (fun d => isBlank d = false) decls ->
  Forall (fun r => isBlank r = false) rules ->
  assemble tableLine decls rules false
  = compactLayout tableLine decls rules.
Proof.
  intros Hd Hr. rewrite assemble_blocks by assumption.
  unfold compactLayout, beforeDeclarations, beforeRules.
  cbn [segmentBreak].
  destruct decls as [|d decls]; destruct rules as [|r rules];
    cbn [nonempty].
  - reflexivity.
  - inversion Hr as [|? ? Hblank _]; subst.
    rewrite (Join_blank_head r rules nl Hblank). cbn [negb app].
    rewrite (Join_cons tableLine) by discriminate.
    change (r :: rules ++ ["COMMIT"])%list
      with ((r :: rules) ++ ["COMMIT"])%list.
    rewrite Join_app by discriminate. reflexivity.
  - cbn [String.eqb negb].
    change (Join [] nl) with "". cbn [String.eqb negb].
    rewrite (Join_cons tableLine) by discriminate.
    change ((d :: decls) ++ [] ++ ["COMMIT"])%list
      with ((d :: decls) ++ ["COMMIT"])%list.
    rewrite Join_app by discriminate. reflexivity.
  - inversion Hr as [|? ? Hblank _]; subst.
    rewrite (Join_blank_head r rules nl Hblank). cbn [negb].
    rewrite (Join_cons tableLine) by discriminate.
    rewrite Join_app by discriminate.
    rewrite (Join_app (r :: rules)) by discriminate.
    reflexivity.
Qed.

Lemma assemble_verbose (tableLine : string)
      (decls rules : list string) :
  assemble tableLine decls rules true
  = Join (annotatedLines tableLine decls rules) nl.
Proof.
  unfold assemble, annotatedLines.
  destruct decls as [|d decls]; destruct rules as [|r rules];
    cbn [andb nonempty annotatedSegment app]; rewrite ?Join_cons2.
  - reflexivity.
  - change (r :: rules ++ [""; "COMMIT"])%list
      with ((r :: rules) ++ [""; "COMMIT"])%list.
    rewrite (Join_app (r :: rules)) by discriminate.
    remember (Join (r :: rules) nl) as R. cbn.
    now rewrite ?append_assoc.
  - change (d :: decls ++ [""; "COMMIT"])%list
      with ((d :: decls) ++ [""; "COMMIT"])%list.
    rewrite (Join_app (d :: decls)) by discriminate.
    remember (Join (d :: decls) nl) as D. cbn.
    now rewrite ?append_assoc.
  - change (d :: decls ++ "" :: "# Rules:" :: r :: rules
              ++ [""; "COMMIT"])%list
      with ((d :: decls) ++ ("" :: "# Rules:" :: r :: rules)
              ++ [""; "COMMIT"])%list.
    rewrite (Join_app (d :: decls)) by discriminate.
    rewrite (Join_app ("" :: "# Rules:" :: r :: rules))
      by discriminate.
    rewrite !Join_cons2.
    remember (Join (d :: decls) nl) as D.
    remember (Join (r :: rules) nl) as R. cbn.
    now rewrite ?append_assoc.
Qed.

Lemma plainLine_parts (l : string) :
  plainLine l = true ->
  isBlank l = false /\ isComment l = false /\ hasNewline l = false.
Proof.
  unfold plainLine. intros Hp.
  apply andb_true_iff in Hp as [Hp Hn].
  apply andb_true_iff in Hp as [Hb Hc].
  now rewrite negb_true_iff in *.
Qed.

Lemma plain_kept (ls : list string) :
  Forall (fun l => plainLine l = true) ls ->
  filter (fun l => negb (isComment l) && negb (isBlank l)) ls = ls.
Proof.
  intros Hp. apply filter_app_keep.
  eapply Forall_impl; [|exact Hp]. intros l Hl.
  destruct (plainLine_parts l Hl) as (-> & -> & _). reflexivity.
Qed.

Lemma annotatedSegment_stripped (title : string) (ls : list string) :
  isComment title = true ->
  Forall (fun l => plainLine l = true) ls ->
  filter (fun l => negb (isComment l) && negb (isBlank l))
         (annotatedSegment title ls) = ls.
Proof.
  intros Ht Hp. destruct ls as [|l ls]; [reflexivity|].
  cbn [annotatedSegment]. remember (l :: ls) as lines.
  cbn [filter isComment isBlank negb andb].
  rewrite Ht. cbn [negb andb]. now apply plain_kept.
Qed.

Lemma annotatedSegment_lines (title : string) (ls : list string) :
  hasNewline title = false ->
  Forall (fun l => plainLine l = true) ls ->
  Forall (fun l => hasNewline l = false) (annotatedSegment title ls).
Proof.
  intros Ht Hp. destruct ls as [|l ls]; [constructor|].
  cbn [annotatedSegment]. constructor; [reflexivity|].
  constructor; [assumption|].
  eapply Forall_impl; [|exact Hp]. intros x Hx.
  now destruct (plainLine_parts x Hx) as (_ & _ & ?).
Qed.

(** What is left of a verbose block once its annotations are gone. *)
Lemma strip_verbose (tableLine : string) (decls rules : list string) :
  plainLine tableLine = true ->
  Forall (fun l => plainLine l = true) decls ->
  Forall (fun l => plainLine l = true) rules ->
  stripAnnotations (assemble tableLine decls rules true)
  = compactLayout tableLine decls rules.
Proof.
  intros Ht Hd Hr. rewrite assemble_verbose.
  unfold stripAnnotations, compactLayout.
  rewrite SplitLines_Join.
  - unfold annotatedLines. cbn [filter].
    destruct (plainLine_parts _ Ht) as (-> & -> & _). cbn [negb andb].
    rewrite !filter_app.
    rewrite !annotatedSegment_stripped by (assumption || reflexivity).
    reflexivity.
  - discriminate.
  - unfold annotatedLines. constructor.
    + now destruct (plainLine_parts _ Ht) as (_ & _ & ?).
    + apply Forall_app. split.
      * now apply annotatedSegment_lines.
      * apply Forall_app. split.
        -- now apply annotatedSegment_lines.
        -- repeat constructor.
Qed.

(** C1: for a table with the custom chains [cs] attached in this
    order, the declaration-line group of [Build] is exactly one line
    per chain (the mode-selected new-chain flag, a space, the chain's
    name), in attachment order; in the output the group stands as one
    block before the block of the rule lines, so every declaration
    line lies at an earlier position than every rule line. *)
Theorem C1_declarations_precede_rules
        (verbose : bool) (pre inp out post : ChainBuilder)
        (cs : list ChainBuilder) :
  let t := fold_left NatTable_AddChain cs
                     (mkNatTable pre inp out post []) in
  let decls := declarationGroup t verbose in
  let rules := ruleGroup t verbose in
  decls = map (fun c => Flags "new-chain" verbose ++ " "
                        ++ chain_String c) cs
  /\ List.length decls = List.length cs
  /\ NatTable_Build t verbose
     = "* nat" ++ beforeDeclarations verbose decls ++ Join decls nl
       ++ beforeRules verbose rules ++ Join rules nl
       ++ segmentBreak verbose ++ "COMMIT"
  /\ (forall i j d r,
         nth_error decls i = Some d -> nth_error rules j = Some r ->
         exists a b c,
           NatTable_Build t verbose = a ++ d ++ b ++ r ++ c).
Proof.
  intros t decls rules.
  assert (Hd : decls = map (newChainLine verbose) cs).
  { unfold decls, declarationGroup. rewrite collectLines_eq.
    cbn [fst natBuilder newChains]. unfold t.
    now destruct (attached (mkNatTable pre inp out post []) cs)
      as (-> & _). }
  assert (Hblank : Forall (fun d => isBlank d = false) decls).
  { rewrite Hd. apply Forall_forall. intros d Hin.
    apply in_map_iff in Hin as (c & <- & _).
    apply newChainLine_not_blank. }
  assert (Hout : NatTable_Build t verbose
                 = "* nat" ++ beforeDeclarations verbose decls
                   ++ Join decls nl ++ beforeRules verbose rules
                   ++ Join rules nl ++ segmentBreak verbose ++ "COMMIT").
  { rewrite Build_assemble. now apply assemble_blocks. }
  split; [exact Hd|]. split; [now rewrite Hd, List.length_map|].
  split; [exact Hout|].
  intros i j d r Hi Hj.
  destruct (Join_nth decls nl i d Hi) as (a1 & b1 & E1).
  destruct (Join_nth rules nl j r Hj) as (a2 & b2 & E2).
  exists ("* nat" ++ beforeDeclarations verbose decls ++ a1),
    (b1 ++ beforeRules verbose rules ++ a2),
    (b2 ++ segmentBreak verbose ++ "COMMIT").
  rewrite Hout, E1, E2. now rewrite !append_assoc.
Qed.

(** C2: the rule-line group of [Build] is the rule lines of
    PREROUTING, INPUT, OUTPUT and POSTROUTING, in this order, followed
    by the rule lines of the custom chains in attachment order; the
    rules of a chain attached later are appended to the group. *)
Theorem C2_builtin_rules_before_custom_rules
        (verbose : bool) (t : NatTable) :
  ruleGroup t verbose
  = (chain_Build (prerouting t) verbose
       ++ chain_Build (input t) verbose
       ++ chain_Build (output t) verbose
       ++ chain_Build (postrouting t) verbose
       ++ flat_map (fun c => chain_Build c verbose) (nat_chains t))%list
  /\ (forall cs,
         ruleGroup (fold_left NatTable_AddChain cs t) verbose
         = (ruleGroup t verbose
              ++ flat_map (fun c => chain_Build c verbose) cs)%list)
  /\ NatTable_Build t verbose
     = assemble "* nat" (declarationGroup t verbose)
                (ruleGroup t verbose) verbose.
Proof.
  assert (Hg : forall u : NatTable,
             ruleGroup u verbose
             = (chain_Build (prerouting u) verbose
                  ++ chain_Build (input u) verbose
                  ++ chain_Build (output u) verbose
                  ++ chain_Build (postrouting u) verbose
                  ++ flat_map (fun c => chain_Build c verbose)
                              (nat_chains u))%list).
  { intros u. unfold ruleGroup. rewrite collectLines_eq.
    cbn [snd natBuilder chains newChains flat_map].
    now rewrite app_nil_r, <- !app_assoc. }
  split; [apply Hg|]. split; [|apply Build_assemble].
  intros cs. rewrite !Hg.
  destruct (attached t cs) as (-> & -> & -> & -> & ->).
  now rewrite flat_map_app, <- !app_assoc.
Qed.

(** C3, as amended: when the declaration lines and rule lines of the
    verbose rendering are plain (not blank, not starting with [#], on
    one line), the verbose output without its comment lines and blank
    separators is the single-newline layout of the table line, these
    lines and COMMIT; it is the compact output whenever the two modes
    spell the declaration lines and the rule lines alike. *)
Theorem C3_stripped_verbose_is_compact_layout (t : NatTable) :
  Forall (fun l => plainLine l = true) (declarationGroup t true) ->
  Forall (fun l => plainLine l = true) (ruleGroup t true) ->
  stripAnnotations (NatTable_Build t true)
  = compactLayout "* nat" (declarationGroup t true) (ruleGroup t true)
  /\ (declarationGroup t false = declarationGroup t true ->
      ruleGroup t false = ruleGroup t true ->
      stripAnnotations (NatTable_Build t true)
      = NatTable_Build t false).
Proof.
  intros Hd Hr.
  assert (Hs : stripAnnotations (NatTable_Build t true)
               = compactLayout "* nat" (declarationGroup t true)
                               (ruleGroup t true)).
  { rewrite Build_assemble. now apply strip_verbose. }
  split; [exact Hs|]. intros Ed Er.
  rewrite Hs, (Build_assemble t false), Ed, Er.
  symmetry. apply assemble_compact.
  - eapply Forall_impl; [|exact Hd]. intros l Hl.
    now destruct (plainLine_parts l Hl).
  - eapply Forall_impl; [|exact Hr]. intros l Hl.
    now destruct (plainLine_parts l Hl).
Qed.

(** C4: when a new chain renders no rule, [Build(false)] on the table
    that [Nat()] returns is the table line, one line break and COMMIT;
    both groups are empty. *)
Theorem C4_fresh_table_compact :
  (forall n verbose, chain_Build (NewChain n) verbose = []) ->
  NatTable_Build Nat false = "* nat" ++ nl ++ "COMMIT"
  /\ declarationGroup Nat false = []
  /\ ruleGroup Nat false = [].
Proof.
  intros Hnew.
  assert (Hc : collectLines (natBuilder Nat) false = ([], [])).
  { rewrite collectLines_eq.
    cbn [natBuilder Nat chains newChains flat_map map
         prerouting input output postrouting nat_chains].
    now rewrite !Hnew. }
  unfold NatTable_Build, TableBuilder_Build, declarationGroup, ruleGroup.
  rewrite Hc. repeat split.
Qed.

(** C10: when a new chain renders no rule, [Build(true)] on the table
    that [Nat()] returns is the table line, a blank line and COMMIT;
    no line of it is a comment line. *)
Theorem C10_fresh_table_verbose :
  (forall n verbose, chain_Build (NewChain n) verbose = []) ->
  NatTable_Build Nat true = "* nat" ++ nl ++ nl ++ "COMMIT"
  /\ filter isComment (SplitLines (NatTable_Build Nat true)) = [].
Proof.
  intros Hnew.
  assert (Hc : collectLines (natBuilder Nat) true = ([], [])).
  { rewrite collectLines_eq.
    cbn [natBuilder Nat chains newChains flat_map map
         prerouting input output postrouting nat_chains].
    now rewrite !Hnew. }
  unfold NatTable_Build, TableBuilder_Build.
  rewrite Hc. split; reflexivity.
Qed.

End Facts.

Import Model.

Lemma C1_witness :
  exists a b c,
    NatTable_Build jumpTable true
    = a ++ "--new-chain FOO" ++ b ++ "-A PREROUTING -j FOO" ++ c.
Proof.
  exact (proj2 (proj2 (proj2
           (C1_declarations_precede_rules
              true (prerouting jumpTable) (input jumpTable)
              (output jumpTable) (postrouting jumpTable)
              (nat_chains jumpTable))))
           0 0 "--new-chain FOO" "-A PREROUTING -j FOO"
           eq_refl eq_refl).
Defined.

(** C3 as the specification states it fails on a table with one custom
    chain: the declaration line is spelled with the verbose flag in the
    verbose output and with the compact flag in the compact output. *)
Lemma C3_counterexample :
  stripAnnotations (NatTable_Build fooTable true)
  = "* nat" ++ nl ++ "--new-chain FOO" ++ nl ++ "COMMIT"
  /\ NatTable_Build fooTable false
     = "* nat" ++ nl ++ "-N FOO" ++ nl ++ "COMMIT"
  /\ stripAnnotations (NatTable_Build fooTable true)
     <> NatTable_Build fooTable false.
Proof.
  split; [reflexivity|]. split; [reflexivity|].
  vm_compute. discriminate.
Qed.

Lemma C3_witness :
  stripAnnotations (NatTable_Build builtinTable true)
  = NatTable_Build builtinTable false.
Proof.
  refine (proj2 (C3_stripped_verbose_is_compact_layout builtinTable _ _)
                eq_refl eq_refl).
  - vm_compute. constructor.
  - vm_compute. repeat constructor.
Defined.

Lemma C4_witness :
  NatTable_Build Nat false = "* nat" ++ nl ++ "COMMIT".
Proof.
  apply (@C4_fresh_table_compact iptables (fun _ _ => eq_refl)).
Defined.

Lemma C10_witness :
  NatTable_Build Nat true = "* nat" ++ nl ++ nl ++ "COMMIT".
Proof.
  apply (@C10_fresh_table_verbose iptables (fun _ _ => eq_refl)).
Defined.

End TableSpec.

(** ** The eBPF loader and the BPF file system: properties *)

Module EbpfSpec.

Import Ebpf.

(** *** Directory trees *)

Lemma Node_tree_ind (P : Node -> Prop) :
  P File ->
  (forall err, P (Unreadable err)) ->
  P (Dir []) ->
  (forall name entry rest,
      P entry -> P (Dir rest) -> P (Dir ((name, entry) :: rest))) ->
  forall n, P n.
Proof.
  intros HF HU HN HC. fix IH 1. intros [ | entries | err ].
  - exact HF.
  - induction entries as [|[name entry] rest IHrest].
    + exact HN.
    + apply HC; [apply IH | exact IHrest].
  - apply HU.
Qed.

Lemma isDirEmpty_cons (name : string) (entry : Node)
      (rest : list (string * Node)) :
  isDirEmpty (Dir ((name, entry) :: rest))
  = if negb (IsDir entry) then (false, None)
    else let '(isEmpty, err) := isDirEmpty entry in
         if notNil err || negb isEmpty then (false, err)
         else isDirEmpty (Dir rest).
Proof. reflexivity. Qed.

Lemma onlyDirectories_cons (name : string) (entry : Node)
      (rest : list (string * Node)) :
  onlyDirectories (Dir ((name, entry) :: rest))
  = onlyDirectories entry && onlyDirectories (Dir rest).
Proof. reflexivity. Qed.

Lemma readable_cons (name : string) (entry : Node)
      (rest : list (string * Node)) :
  readable (Dir ((name, entry) :: rest))
  = readable entry && readable (Dir rest).
Proof. reflexivity. Qed.

(** [isDirEmpty] answers true exactly on the trees of directories, and
    then without an error. *)
Lemma isDirEmpty_true (n : Node) :
  match isDirEmpty n with
  | (true, None) => onlyDirectories n = true
  | (true, Some _) => False
  | (false, _) => onlyDirectories n = false
  end.
Proof.
  induction n as [ | err | | name entry rest IHentry IHrest ]
    using Node_tree_ind; try reflexivity.
  rewrite isDirEmpty_cons, onlyDirectories_cons.
  destruct (IsDir entry) eqn:Hdir; cbn [negb].
  - destruct (isDirEmpty entry) as [[|] [msg|]]; cbn [notNil orb negb];
      try contradiction.
    + rewrite IHentry. exact IHrest.
    + now rewrite IHentry.
    + now rewrite IHentry.
  - destruct entry; try discriminate. reflexivity.
Qed.

(** On a tree that can be read throughout, [isDirEmpty] has no error. *)
Lemma isDirEmpty_readable (n : Node) :
  IsDir n = true -> readable n = true -> snd (isDirEmpty n) = None.
Proof.
  induction n as [ | err | | name entry rest IHentry IHrest ]
    using Node_tree_ind; try discriminate; try reflexivity.
  intros _. rewrite readable_cons, isDirEmpty_cons.
  intros Hr. apply andb_true_iff in Hr as [Hentry Hrest].
  destruct (IsDir entry) eqn:Hdir; cbn [negb]; [|reflexivity].
  specialize (IHentry eq_refl Hentry).
  destruct (isDirEmpty entry) as [[|] err]; cbn [snd] in IHentry; subst err;
    cbn [notNil orb negb]; [|reflexivity].
  now apply IHrest.
Qed.

(** *** The loader *)

Section LoaderFacts.

Context `{OS}.

Lemma flagsCalls_app (tr1 tr2 : list Event) :
  flagsCalls (tr1 ++ tr2) = (flagsCalls tr1 ++ flagsCalls tr2)%list.
Proof. apply flat_map_app. Qed.

(** [run] in closed form. *)
Lemma run_eq (cmdToExec : string) (args envVars : list string)
      (w : World) :
  let env := (os_Environ (sys w) ++ envVars)%list in
  let r := fst (cmd_Run cmdToExec args env (sys w)) in
  let code := ExitCode (processState r) in
  let failed := negb (code =? 0)%Z || notNil (runError r) in
  let echo := "Running: " ++ Join envVars " " ++ " " ++ cmdToExec
              ++ " " ++ Join args " " ++ nl in
  run cmdToExec args envVars w
  = (if failed
     then Some ("unexpected exit code: " ++ itoa code ++ ", err: "
                ++ fmtError (runError r))
     else None,
     {| sys := snd (cmd_Run cmdToExec args env (sys w));
        stdout := (stdout w ++ echo) ++ wroteStdout r
                  ++ (if failed then "" else nl);
        stderr := stderr w ++ wroteStderr r;
        trace := (trace w ++ [EvExec cmdToExec args env])%list |}).
Proof.
  cbv zeta. unfold run, bind, writeStdout, runCommand, ret.
  cbn [sys stdout stderr trace].
  destruct (cmd_Run cmdToExec args (os_Environ (sys w) ++ envVars)
                    (sys w)) as [r s'].
  cbn [fst snd].
  destruct (negb (ExitCode (processState r) =? 0)%Z
            || notNil (runError r)); cbn [sys stdout stderr trace].
  - now rewrite StringFacts.append_nil_r.
  - now rewrite StringFacts.append_assoc.
Qed.

Lemma run_flagsCalls (cmdToExec : string) (args envVars : list string)
      (w : World) :
  flagsCalls (trace (snd (run cmdToExec args envVars w)))
  = flagsCalls (trace w).
Proof.
  rewrite run_eq. cbn [snd trace].
  rewrite flagsCalls_app. cbn. now rewrite app_nil_r.
Qed.

Lemma attemptUnit_flagsCalls (cfg : Config) (p : Program) (w : World) :
  flagsCalls (trace (snd (attemptUnit cfg p w)))
  = (flagsCalls (trace w) ++ [Name p])%list.
Proof.
  unfold attemptUnit, bind, callFlags.
  destruct (ProgramFlags p (sys w)) as [[flags|msg] s'].
  - rewrite run_flagsCalls. cbn [trace]. now rewrite flagsCalls_app.
  - cbn [ret snd trace]. now rewrite flagsCalls_app.
Qed.

Lemma attemptAll_cons (cfg : Config) (p : Program)
      (rest : list Program) (w : World) :
  attemptAll cfg (p :: rest) w
  = (fst (attemptUnit cfg p w)
       :: fst (attemptAll cfg rest (snd (attemptUnit cfg p w))),
     snd (attemptAll cfg rest (snd (attemptUnit cfg p w)))).
Proof.
  cbn [attemptAll]. unfold bind at 1.
  destruct (attemptUnit cfg p w) as [o w1]. unfold bind, ret.
  cbn [fst snd]. now destruct (attemptAll cfg rest w1).
Qed.

Lemma attemptAll_length (cfg : Config) (programs : list Program)
      (w : World) :
  List.length (fst (attemptAll cfg programs w)) = List.length programs.
Proof.
  revert w. induction programs as [|p rest IH]; intros w.
  - reflexivity.
  - rewrite attemptAll_cons. cbn [fst List.length]. now rewrite IH.
Qed.

Lemma attemptAll_flagsCalls (cfg : Config) (programs : list Program)
      (w : World) :
  flagsCalls (trace (snd (attemptAll cfg programs w)))
  = (flagsCalls (trace w) ++ map Name programs)%list.
Proof.
  revert w. induction programs as [|p rest IH]; intros w.
  - cbn. now rewrite app_nil_r.
  - rewrite attemptAll_cons. cbn [snd map].
    rewrite IH, attemptUnit_flagsCalls. now rewrite <- app_assoc.
Qed.

(** The loop collects, behind the errors it starts from, the failures
    of the attempts, and leaves the world the attempts leave. *)
Lemma loadLoop_attemptAll (cfg : Config) (programs : list Program)
      (errs : list string) (w : World) :
  loadLoop programs cfg errs w
  = ((errs ++ failures (fst (attemptAll cfg programs w)))%list,
     snd (attemptAll cfg programs w)).
Proof.
  revert errs w. induction programs as [|p rest IH]; intros errs w.
  - cbn. now rewrite app_nil_r.
  - rewrite attemptAll_cons. cbn [loadLoop fst snd].
    unfold attemptUnit, bind.
    destruct (callFlags p w) as [[flags|msg] w1].
    + destruct (run (path_Join [ProgramsSourcePath cfg; Name p])
                    flags [] w1) as [[msg|] w2]; cbn [fst snd].
      * rewrite IH. cbn [failures flat_map].
        now rewrite <- app_assoc.
      * rewrite IH. reflexivity.
    + cbn [ret fst snd]. rewrite IH. cbn [failures flat_map].
      now rewrite <- app_assoc.
Qed.

Lemma failures_none (outcomes : list (option string)) :
  failures outcomes = [] <-> Forall (fun o => o = None) outcomes.
Proof.
  induction outcomes as [|[msg|] os IH]; cbn.
  - split; constructor.
  - split; [discriminate|]. intros Hall. inversion Hall. discriminate.
  - rewrite IH. split; [now constructor | now inversion 1].
Qed.

Lemma failures_In (outcomes : list (option string)) (msg : string) :
  In (Some msg) outcomes <-> In msg (failures outcomes).
Proof.
  unfold failures. rewrite in_flat_map. split.
  - intros Hin. exists (Some msg). split; [exact Hin | now left].
  - intros ([m|] & Hin & Hm); cbn in Hm; [|contradiction].
    destruct Hm as [->|[]]. exact Hin.
Qed.

Lemma LoadAndAttach_eq (programs : list Program) (cfg : Config)
      (w : World) :
  LoadAndAttachEbpfPrograms programs cfg w
  = (joinedError (fst (attemptAll cfg programs w)),
     snd (attemptAll cfg programs w)).
Proof.
  unfold LoadAndAttachEbpfPrograms, bind.
  rewrite loadLoop_attemptAll. cbn [app]. unfold joinedError.
  now destruct (failures (fst (attemptAll cfg programs w))).
Qed.

(** C7: the loader calls [Flags] of every program of the list, in
    list order, whatever failed before; its world at return is the one
    that attempting every program in turn leaves; it returns nil
    exactly when no attempt failed, and otherwise one error whose
    text joins the failure messages of all failed attempts. *)
Theorem C7_batch_attempts_all_and_joins_failures
        (programs : list Program) (cfg : Config) (w : World) :
  let result := fst (LoadAndAttachEbpfPrograms programs cfg w) in
  let after := snd (LoadAndAttachEbpfPrograms programs cfg w) in
  let outcomes := fst (attemptAll cfg programs w) in
  after = snd (attemptAll cfg programs w)
  /\ List.length outcomes = List.length programs
  /\ flagsCalls (trace after)
     = (flagsCalls (trace w) ++ map Name programs)%list
  /\ (result = None <-> Forall (fun o => o = None) outcomes)
  /\ (result <> None ->
      result = Some ("loading and attaching bpf programs failed:" ++ nl
                     ++ Join (failures outcomes) (nl ++ tab)))
  /\ (forall msg, In (Some msg) outcomes <-> In msg (failures outcomes)).
Proof.
  cbv zeta. rewrite LoadAndAttach_eq. cbn [fst snd].
  split; [reflexivity|]. split; [apply attemptAll_length|].
  split; [apply attemptAll_flagsCalls|].
  split; [|split; [|intros msg; apply failures_In]].
  - rewrite <- failures_none. unfold joinedError.
    destruct (failures (fst (attemptAll cfg programs w)));
      split; (reflexivity || discriminate).
  - unfold joinedError.
    destruct (failures (fst (attemptAll cfg programs w)));
      [congruence | reflexivity].
Qed.

(** C8: [run] returns, and what it returns is an error, whenever the
    program it ran exited with a nonzero code or [cmd.Run] itself
    failed; when the program could not be started (no process state)
    the error reports exit code -1. *)
Theorem C8_run_returns_error
        (cmdToExec : string) (args envVars : list string) (w : World) :
  let r := fst (cmd_Run cmdToExec args
                        (os_Environ (sys w) ++ envVars)%list (sys w)) in
  (ExitCode (processState r) <> 0%Z \/ runError r <> None ->
   fst (run cmdToExec args envVars w)
   = Some ("unexpected exit code: " ++ itoa (ExitCode (processState r))
           ++ ", err: " ++ fmtError (runError r)))
  /\ (processState r = None ->
      fst (run cmdToExec args envVars w)
      = Some ("unexpected exit code: -1, err: "
              ++ fmtError (runError r))).
Proof.
  cbv zeta. rewrite run_eq. cbn [fst]. split.
  - intros [Hcode | Herr].
    + apply Z.eqb_neq in Hcode. now rewrite Hcode.
    + destruct (runError _); [|congruence].
      cbn [notNil]. now rewrite orb_true_r.
  - intros ->. reflexivity.
Qed.

End LoaderFacts.

(** *** The bootstrap of the BPF file system *)

Section BootstrapFacts.

Context `{OS}.

(** C6, as amended: [InitBPFFSMaybe] mounts the BPF file system (and,
    once mounted, creates [tc/globals]) only when the path leads to a
    directory whose tree holds nothing but directories, at any depth,
    and it does so for every such directory; when the path leads to a
    directory that can be read throughout and holds an entry that is
    not a directory, it returns nil and neither mounts nor creates
    anything. *)
Theorem C6_initializes_trees_without_files
        (k : Kernel) (fsPath : string) :
  (snd (InitBPFFSMaybe k fsPath) <> [] ->
   exists n, os_Stat k fsPath = Ok n /\ IsDir n = true
             /\ onlyDirectories n = true)
  /\ (forall n,
         os_Stat k fsPath = Ok n -> onlyDirectories n = true ->
         snd (InitBPFFSMaybe k fsPath)
         = match unix_Mount k "bpf" fsPath "bpf" with
           | Some _ => [EvMount "bpf" fsPath "bpf"]
           | None => [EvMount "bpf" fsPath "bpf";
                      EvMkdirAll (path_Join [fsPath; "tc"; "globals"])]
           end)
  /\ (forall n,
         os_Stat k fsPath = Ok n -> IsDir n = true ->
         readable n = true -> onlyDirectories n = false ->
         InitBPFFSMaybe k fsPath = (None, [])).
Proof.
  unfold InitBPFFSMaybe. split; [|split].
  - destruct (os_Stat k fsPath) as [n|msg]; cbn [snd]; [|congruence].
    destruct (IsDir n) eqn:Hdir; cbn [negb snd]; [|congruence].
    pose proof (isDirEmpty_true n) as Hempty.
    destruct (isDirEmpty n) as [[|] [msg|]]; cbn [negb snd];
      try congruence; try contradiction.
    intros _. now exists n.
  - intros n -> Honly.
    assert (Hdir : IsDir n = true) by (now destruct n).
    rewrite Hdir. cbn [negb].
    pose proof (isDirEmpty_true n) as Hempty.
    destruct (isDirEmpty n) as [[|] [msg|]]; try contradiction;
      try congruence.
    cbn [negb].
    destruct (unix_Mount k "bpf" fsPath "bpf"); [reflexivity|].
    now destruct (os_MkdirAll k _).
  - intros n -> Hdir Hread Hfile. rewrite Hdir. cbn [negb].
    pose proof (isDirEmpty_true n) as Hempty.
    pose proof (isDirEmpty_readable n Hdir Hread) as Herr.
    destruct (isDirEmpty n) as [[|] err]; cbn [snd] in Herr; subst err.
    + congruence.
    + reflexivity.
Qed.

End BootstrapFacts.

(** *** The records *)

(** C9: every list of the pod record is an array of [MaxItemLen] = 10
    items; the record holds, in this order, the 2-byte status port (and
    2 bytes of padding), 10 excluded and 10 included outbound ranges of
    8 bytes each (a 4-byte address, a 1-byte prefix length, 3 bytes of
    padding), and the four arrays of 10 2-byte ports: included inbound,
    included outbound, excluded inbound, excluded outbound; 244 bytes in
    all. *)
Theorem C9_pod_config_layout :
  MaxItemLen = 10
  /\ layout Cidr = [("Net", 0, 4); ("Mask", 4, 1); ("_", 5, 3)]
  /\ sizeof Cidr = 8
  /\ layout PodConfig
     = [("StatusPort", 0, 2); ("_", 2, 2);
        ("ExcludeOutRanges", 4, 80); ("IncludeOutRanges", 84, 80);
        ("IncludeInPorts", 164, 20); ("IncludeOutPorts", 184, 20);
        ("ExcludeInPorts", 204, 20); ("ExcludeOutPorts", 224, 20)]
  /\ arrayLens PodConfig
     = [("ExcludeOutRanges", 10); ("IncludeOutRanges", 10);
        ("IncludeInPorts", 10); ("IncludeOutPorts", 10);
        ("ExcludeInPorts", 10); ("ExcludeOutPorts", 10)]
  /\ sizeof PodConfig = 244.
Proof. repeat split. Qed.

Import Model.

(** C6 as the specification states it fails on a mount point that holds
    directories only (here [tc/globals], as an earlier bootstrap leaves
    it when nothing is pinned): the directory has an entry, and yet the
    file system is mounted and the directories are created again. *)
Lemma C6_counterexample :
  IsDir bootstrapped = true
  /\ noEntries bootstrapped = false
  /\ InitBPFFSMaybe (kernelWith bootstrapped) "/sys/fs/bpf"
     = (None, [EvMount "bpf" "/sys/fs/bpf" "bpf";
               EvMkdirAll "/sys/fs/bpf/tc/globals"])
  /\ ~ (forall (k : Kernel) (fsPath : string) (n : Node),
           os_Stat k fsPath = Ok n -> IsDir n = true ->
           noEntries n = false ->
           InitBPFFSMaybe k fsPath = (None, [])).
Proof.
  repeat split. intros Hclaim.
  specialize (Hclaim (kernelWith bootstrapped) "/sys/fs/bpf" bootstrapped
                     eq_refl eq_refl eq_refl).
  discriminate Hclaim.
Qed.

Lemma C6_witness :
  InitBPFFSMaybe (kernelWith pinned) "/sys/fs/bpf" = (None, []).
Proof.
  exact (proj2 (proj2 (C6_initializes_trees_without_files
                         (kernelWith pinned) "/sys/fs/bpf"))
               pinned eq_refl eq_refl eq_refl eq_refl).
Defined.

(** Three units of which the second fails: the error names the second
    unit's failure only, and all three were run. *)
Lemma C7_witness :
  fst (LoadAndAttachEbpfPrograms batch cfg freshWorld)
  = Some ("loading and attaching bpf programs failed:" ++ nl
          ++ "unexpected exit code: 1, err: exit status 1")
  /\ flagsCalls (trace (snd (LoadAndAttachEbpfPrograms batch cfg
                                                        freshWorld)))
     = ["mb_connect"; "fails"; "mb_bind"]
  /\ execCalls (trace (snd (LoadAndAttachEbpfPrograms batch cfg
                                                       freshWorld)))
     = ["/progs/mb_connect"; "/progs/fails"; "/progs/mb_bind"].
Proof.
  pose proof (C7_batch_attempts_all_and_joins_failures
                batch cfg freshWorld) as (_ & _ & Hcalls & _ & Hres & _).
  split; [|split].
  - apply Hres. discriminate.
  - exact Hcalls.
  - reflexivity.
Defined.

Lemma C8_witness :
  fst (run "/progs/fails" [] [] freshWorld)
  = Some "unexpected exit code: 1, err: exit status 1"
  /\ fst (run "/progs/missing" [] [] freshWorld)
     = Some "unexpected exit code: -1, err: fork/exec /progs/missing: no such file or directory".
Proof.
  split.
  - apply (proj1 (C8_run_returns_error "/progs/fails" [] [] freshWorld)).
    left. discriminate.
  - apply (proj2 (C8_run_returns_error "/progs/missing" [] []
                                       freshWorld)).
    reflexivity.
Defined.

End EbpfSpec.

(** ** The table builder: further properties *)

Module TableExtra.

Import Table StringFacts TableSpec.

Section Facts.

Context `{ChainAPI}.

Lemma groups_eq (t : NatTable) (verbose : bool) :
  declarationGroup t verbose
  = map (newChainLine verbose) (nat_chains t)
  /\ ruleGroup t verbose
     = (chain_Build (prerouting t) verbose
          ++ chain_Build (input t) verbose
          ++ chain_Build (output t) verbose
          ++ chain_Build (postrouting t) verbose
          ++ flat_map (fun c => chain_Build c verbose) (nat_chains t))%list.
Proof.
  unfold declarationGroup, ruleGroup. rewrite collectLines_eq.
  cbn [fst snd natBuilder chains newChains flat_map].
  split; [reflexivity|]. now rewrite app_nil_r, <- !app_assoc.
Qed.

Lemma declarations_not_blank (t : NatTable) (verbose : bool) :
  Forall (fun d => isBlank d = false) (declarationGroup t verbose).
Proof.
  rewrite (proj1 (groups_eq t verbose)). apply Forall_forall.
  intros d Hin. apply in_map_iff in Hin as (c & <- & _).
  apply newChainLine_not_blank.
Qed.

Lemma annotatedSegment_no_break (title : string) (ls : list string) :
  hasNewline title = false ->
  Forall (fun l => hasNewline l = false) ls ->
  Forall (fun l => hasNewline l = false) (annotatedSegment title ls).
Proof.
  intros Ht Hl. destruct ls as [|l ls]; [constructor|].
  cbn [annotatedSegment]. constructor; [reflexivity|].
  now constructor.
Qed.

(** X1: a table without custom chains renders, in either mode, as the
    table line, the rule lines of its four built-in chains and COMMIT:
    it has no declaration line and no declaration segment. *)
Theorem no_custom_chain_no_declaration (t : NatTable) (verbose : bool) :
  nat_chains t = [] ->
  let rules := (chain_Build (prerouting t) verbose
                  ++ chain_Build (input t) verbose
                  ++ chain_Build (output t) verbose
                  ++ chain_Build (postrouting t) verbose)%list in
  declarationGroup t verbose = []
  /\ ruleGroup t verbose = rules
  /\ NatTable_Build t verbose
     = "* nat" ++ beforeRules verbose rules ++ Join rules nl
       ++ segmentBreak verbose ++ "COMMIT".
Proof.
  intros Hnone rules.
  destruct (groups_eq t verbose) as [Hd Hr].
  rewrite Hnone in Hd, Hr. cbn [map flat_map] in Hd, Hr.
  rewrite !app_nil_r in Hr. fold rules in Hr.
  split; [exact Hd|]. split; [exact Hr|].
  rewrite Build_assemble, assemble_blocks by (rewrite Hd; constructor).
  rewrite Hd, Hr. reflexivity.
Qed.

(** X2: when no declaration line and no rule line holds a line break and
    no rule line is empty, the lines of the compact output are, in this
    order, the table line, one line per custom chain, the rule lines and
    COMMIT: every rule stands on a line of its own. *)
Theorem compact_output_lines (t : NatTable) :
  Forall (fun l => hasNewline l = false) (declarationGroup t false) ->
  Forall (fun l => hasNewline l = false) (ruleGroup t false) ->
  Forall (fun l => isBlank l = false) (ruleGroup t false) ->
  SplitLines (NatTable_Build t false)
  = ("* nat" :: declarationGroup t false ++ ruleGroup t false
       ++ ["COMMIT"])%list.
Proof.
  intros Hd Hr Hblank.
  rewrite Build_assemble, assemble_compact
    by (assumption || apply declarations_not_blank).
  unfold compactLayout. apply SplitLines_Join; [discriminate|].
  constructor; [reflexivity|].
  apply Forall_app. split; [assumption|].
  apply Forall_app. split; [assumption|]. now constructor.
Qed.

(** X3: when no declaration line and no rule line holds a line break,
    the lines of the verbose output are the table line, then for each
    group that has lines a blank line, the comment line of the group and
    the lines of the group, then a blank line and COMMIT. *)
Theorem verbose_output_lines (t : NatTable) :
  Forall (fun l => hasNewline l = false) (declarationGroup t true) ->
  Forall (fun l => hasNewline l = false) (ruleGroup t true) ->
  SplitLines (NatTable_Build t true)
  = ("* nat"
       :: annotatedSegment "# Custom Chains:" (declarationGroup t true)
       ++ annotatedSegment "# Rules:" (ruleGroup t true)
       ++ [""; "COMMIT"])%list.
Proof.
  intros Hd Hr. rewrite Build_assemble, assemble_verbose.
  unfold annotatedLines. apply SplitLines_Join; [discriminate|].
  constructor; [reflexivity|].
  apply Forall_app. split; [now apply annotatedSegment_no_break|].
  apply Forall_app. split; [now apply annotatedSegment_no_break|].
  repeat constructor.
Qed.

(** X4: attaching a chain leaves the built-in chains and the chains
    attached before as they are, adds the chain's declaration line
    behind the declaration lines and its rule lines behind the rule
    lines; nothing is deduplicated, a chain attached twice is declared
    twice. *)
Theorem AddChain_appends (t : NatTable) (c : ChainBuilder)
        (verbose : bool) :
  let t' := snd (callAddChain c t) in
  let d := Flags "new-chain" verbose ++ " " ++ chain_String c in
  prerouting t' = prerouting t /\ input t' = input t
  /\ output t' = output t /\ postrouting t' = postrouting t
  /\ nat_chains t' = (nat_chains t ++ [c])%list
  /\ declarationGroup t' verbose
     = (declarationGroup t verbose ++ [d])%list
  /\ ruleGroup t' verbose
     = (ruleGroup t verbose ++ chain_Build c verbose)%list
  /\ declarationGroup (snd (callAddChain c t')) verbose
     = (declarationGroup t verbose ++ [d; d])%list.
Proof.
  cbv zeta. cbn [callAddChain snd].
  repeat (split; [reflexivity|]).
  rewrite !(proj1 (groups_eq _ verbose)), !(proj2 (groups_eq _ verbose)).
  cbn [NatTable_AddChain prerouting input output postrouting nat_chains].
  rewrite !map_app, !flat_map_app. cbn [map flat_map].
  rewrite app_nil_r, <- !app_assoc. repeat split.
Qed.

(** X5: the two modes decide differently whether there is a rule
    segment.  Compact mode drops it when the joined rule lines are the
    empty text, so a lone empty rule line leaves no trace; verbose mode
    keeps it whenever there is a rule line, and heads it with the
    comment line. *)
Theorem rule_segment_presence (t : NatTable) :
  (Join (ruleGroup t false) nl = "" ->
   NatTable_Build t false
   = "* nat" ++ beforeDeclarations false (declarationGroup t false)
     ++ Join (declarationGroup t false) nl ++ nl ++ "COMMIT")
  /\ (ruleGroup t true <> [] ->
      NatTable_Build t true
      = "* nat" ++ beforeDeclarations true (declarationGroup t true)
        ++ Join (declarationGroup t true) nl
        ++ (nl ++ nl) ++ ("# Rules:" ++ nl) ++ Join (ruleGroup t true) nl
        ++ (nl ++ nl) ++ "COMMIT").
Proof.
  split.
  - intros Hjoin.
    rewrite Build_assemble, assemble_blocks
      by apply declarations_not_blank.
    unfold beforeRules. rewrite Hjoin. reflexivity.
  - intros Hsome.
    rewrite Build_assemble, assemble_blocks
      by apply declarations_not_blank.
    unfold beforeRules. destruct (ruleGroup t true); [congruence|].
    cbn [nonempty segmentBreak]. now rewrite !append_assoc.
Qed.

(** X6: [TableBuilder.Build], for any table name and any lists of
    chains: the output opens with the table marker and the name, closes
    with COMMIT behind a segment break, and holds between them one
    declaration line per chain of [newChains] followed by the rule lines
    of [chains] and then those of [newChains]. *)
Theorem TableBuilder_Build_blocks (b : TableBuilder) (verbose : bool) :
  let decls := map (fun c => Flags "new-chain" verbose ++ " "
                             ++ chain_String c) (newChains b) in
  let rules := (flat_map (fun c => chain_Build c verbose) (chains b)
                  ++ flat_map (fun c => chain_Build c verbose)
                              (newChains b))%list in
  TableBuilder_Build b verbose
  = ("* " ++ name b) ++ beforeDeclarations verbose decls ++ Join decls nl
    ++ beforeRules verbose rules ++ Join rules nl
    ++ segmentBreak verbose ++ "COMMIT".
Proof.
  cbv zeta. unfold TableBuilder_Build. rewrite collectLines_eq.
  apply assemble_blocks. apply Forall_forall. intros d Hin.
  apply in_map_iff in Hin as (c & <- & _).
  apply newChainLine_not_blank.
Qed.

End Facts.

Import Model.

Lemma no_custom_chain_no_declaration_witness :
  declarationGroup builtinTable true = [].
Proof.
  exact (proj1 (no_custom_chain_no_declaration builtinTable true
                                               eq_refl)).
Defined.

Lemma compact_output_lines_witness :
  SplitLines (NatTable_Build jumpTable false)
  = ["* nat"; "-N FOO"; "-A PREROUTING -j FOO"; "-A FOO -j RETURN";
     "COMMIT"].
Proof.
  apply (compact_output_lines jumpTable); vm_compute; repeat constructor.
Defined.

Lemma verbose_output_lines_witness :
  SplitLines (NatTable_Build jumpTable true)
  = ["* nat"; ""; "# Custom Chains:"; "--new-chain FOO"; "";
     "# Rules:"; "-A PREROUTING -j FOO"; "-A FOO -j RETURN"; "";
     "COMMIT"].
Proof.
  apply (verbose_output_lines jumpTable); vm_compute; repeat constructor.
Defined.

Lemma rule_segment_presence_witness :
  NatTable_Build blankRuleTable false
  = "* nat" ++ nl ++ "-N FOO" ++ nl ++ "COMMIT"
  /\ NatTable_Build blankRuleTable true
     = "* nat" ++ nl ++ nl ++ "# Custom Chains:" ++ nl ++ "--new-chain FOO"
       ++ nl ++ nl ++ "# Rules:" ++ nl ++ nl ++ nl ++ "COMMIT".
Proof.
  split.
  - apply (proj1 (rule_segment_presence blankRuleTable)). reflexivity.
  - apply (proj2 (rule_segment_presence blankRuleTable)). discriminate.
Defined.

End TableExtra.

(** ** The eBPF loader and the BPF file system: further properties *)

Module EbpfExtra.

Import Ebpf StringFacts EbpfSpec.

Section LoaderFacts.

Context `{OS}.

Lemma execCalls_app (tr1 tr2 : list Event) :
  execCalls (tr1 ++ tr2) = (execCalls tr1 ++ execCalls tr2)%list.
Proof. apply flat_map_app. Qed.

Lemma failures_app (o1 o2 : list (option string)) :
  failures (o1 ++ o2) = (failures o1 ++ failures o2)%list.
Proof. apply flat_map_app. Qed.

Lemma joinedError_nil (outcomes : list (option string)) :
  joinedError outcomes = None <-> failures outcomes = [].
Proof.
  unfold joinedError. destruct (failures outcomes); split;
    (reflexivity || discriminate).
Qed.

Lemma attemptAll_app (cfg : Config) (ps1 ps2 : list Program) (w : World) :
  attemptAll cfg (ps1 ++ ps2) w
  = ((fst (attemptAll cfg ps1 w)
        ++ fst (attemptAll cfg ps2 (snd (attemptAll cfg ps1 w))))%list,
     snd (attemptAll cfg ps2 (snd (attemptAll cfg ps1 w)))).
Proof.
  revert w. induction ps1 as [|p rest IH]; intros w.
  - cbn [app attemptAll ret fst snd]. now destruct (attemptAll cfg ps2 w).
  - change ((p :: rest) ++ ps2)%list with (p :: (rest ++ ps2))%list.
    rewrite !attemptAll_cons, IH. reflexivity.
Qed.

(** X7: [run] returns nil exactly when the process ran and exited with
    code 0 and [cmd.Run] gave no error.  It runs the command once, with
    the parent's environment followed by the extra variables; the echoed
    invocation line precedes what the process writes, and the closing
    line break is written on success only. *)
Theorem run_outcome_and_output
        (cmdToExec : string) (args envVars : list string) (w : World) :
  let env := (os_Environ (sys w) ++ envVars)%list in
  let r := fst (cmd_Run cmdToExec args env (sys w)) in
  let echo := "Running: " ++ Join envVars " " ++ " " ++ cmdToExec
              ++ " " ++ Join args " " ++ nl in
  let res := fst (run cmdToExec args envVars w) in
  let after := snd (run cmdToExec args envVars w) in
  (res = None <-> processState r = Some 0%Z /\ runError r = None)
  /\ trace after = (trace w ++ [EvExec cmdToExec args env])%list
  /\ stdout after
     = (stdout w ++ echo) ++ wroteStdout r
       ++ (match res with None => nl | Some _ => "" end)
  /\ stderr after = stderr w ++ wroteStderr r.
Proof.
  cbv zeta. rewrite run_eq. cbn [fst snd trace stdout stderr].
  set (r := fst (cmd_Run cmdToExec args
                         (os_Environ (sys w) ++ envVars)%list (sys w))).
  split; [|split; [reflexivity|split; [|reflexivity]]].
  - destruct (processState r) as [code|]; cbn [ExitCode].
    + destruct (Z.eqb_spec code 0) as [->|Hne]; cbn [negb orb].
      * destruct (runError r); cbn [notNil]; split;
          try discriminate; try (intros [_ ?]; discriminate); auto.
      * split; [discriminate|]. intros [Hc _]. congruence.
    + cbn. split; [discriminate|]. intros [? _]. discriminate.
  - now destruct (negb (ExitCode (processState r) =? 0)%Z
                  || notNil (runError r)).
Qed.

(** X8: loading a list made of two lists is loading the first and then,
    from the world this leaves, the second: the world at the end is the
    same, and the whole succeeds exactly when both parts do. *)
Theorem LoadAndAttach_app (ps1 ps2 : list Program) (cfg : Config)
        (w : World) :
  let first := LoadAndAttachEbpfPrograms ps1 cfg w in
  let second := LoadAndAttachEbpfPrograms ps2 cfg (snd first) in
  let whole := LoadAndAttachEbpfPrograms (ps1 ++ ps2) cfg w in
  snd whole = snd second
  /\ (fst whole = None <-> fst first = None /\ fst second = None).
Proof.
  cbv zeta. rewrite !LoadAndAttach_eq. cbn [fst snd].
  rewrite attemptAll_app. cbn [fst snd]. split; [reflexivity|].
  rewrite !joinedError_nil, failures_app.
  split.
  - intros Happ. now apply app_eq_nil in Happ.
  - intros [-> ->]. reflexivity.
Qed.

(** X9: a program whose [Flags] fail is not run.  When the flags of
    every program of the list fail, no command is executed and nothing
    is written to either writer; unless the list is empty, an error is
    returned. *)
Theorem failing_flags_run_nothing (programs : list Program)
        (cfg : Config) (w : World) :
  Forall (fun p => forall s, exists msg, fst (ProgramFlags p s) = Err msg)
         programs ->
  let res := fst (LoadAndAttachEbpfPrograms programs cfg w) in
  let after := snd (LoadAndAttachEbpfPrograms programs cfg w) in
  execCalls (trace after) = execCalls (trace w)
  /\ stdout after = stdout w
  /\ stderr after = stderr w
  /\ (programs <> [] -> res <> None).
Proof.
  intros Hall. cbv zeta. rewrite LoadAndAttach_eq. cbn [fst snd].
  assert (Hgen : forall w0,
             execCalls (trace (snd (attemptAll cfg programs w0)))
             = execCalls (trace w0)
             /\ stdout (snd (attemptAll cfg programs w0)) = stdout w0
             /\ stderr (snd (attemptAll cfg programs w0)) = stderr w0
             /\ (programs <> [] ->
                 failures (fst (attemptAll cfg programs w0)) <> [])).
  { induction Hall as [|p rest Hp _ IH]; intros w0.
    - cbn. repeat split. congruence.
    - rewrite attemptAll_cons. cbn [fst snd].
      destruct (Hp (sys w0)) as [msg Hmsg].
      assert (Hunit : attemptUnit cfg p w0
                      = (Some msg,
                         {| sys := snd (ProgramFlags p (sys w0));
                            stdout := stdout w0; stderr := stderr w0;
                            trace := (trace w0 ++ [EvFlags (Name p)])%list
                         |})).
      { unfold attemptUnit, bind, callFlags.
        destruct (ProgramFlags p (sys w0)) as [r s']. cbn [fst] in Hmsg.
        subst r. reflexivity. }
      rewrite Hunit. cbn [fst snd].
      destruct (IH {| sys := snd (ProgramFlags p (sys w0));
                      stdout := stdout w0; stderr := stderr w0;
                      trace := (trace w0 ++ [EvFlags (Name p)])%list |})
        as (He & Ho & Hs & _).
      rewrite He, Ho, Hs. cbn [trace stdout stderr].
      rewrite execCalls_app. cbn. rewrite app_nil_r.
      repeat split. discriminate. }
  destruct (Hgen w) as (He & Ho & Hs & Hf).
  repeat split; try assumption.
  intros Hne. rewrite joinedError_nil. now apply Hf.
Qed.

(** X10: when the flags of every program of the list can be computed,
    every program is run exactly once, in list order, each as the file
    named after it in the configured source directory. *)
Theorem computed_flags_run_every_program (programs : list Program)
        (cfg : Config) (w : World) :
  Forall (fun p => forall s, exists flags, fst (ProgramFlags p s) = Ok flags)
         programs ->
  execCalls (trace (snd (LoadAndAttachEbpfPrograms programs cfg w)))
  = (execCalls (trace w)
       ++ map (fun p => path_Join [ProgramsSourcePath cfg; Name p])
              programs)%list.
Proof.
  intros Hall. rewrite LoadAndAttach_eq. cbn [snd]. revert w.
  induction Hall as [|p rest Hp _ IH]; intros w.
  - cbn. now rewrite app_nil_r.
  - rewrite attemptAll_cons. cbn [snd map]. rewrite IH.
    destruct (Hp (sys w)) as [flags Hflags].
    unfold attemptUnit, bind, callFlags.
    destruct (ProgramFlags p (sys w)) as [r s']. cbn [fst] in Hflags.
    subst r. rewrite run_eq. cbn [snd trace].
    rewrite !execCalls_app. cbn. now rewrite app_nil_r, <- !app_assoc.
Qed.

End LoaderFacts.

(** *** Directory trees and the bootstrap *)

(** X11: [isDirEmpty] answers true exactly for a tree made of
    directories only, and it never answers true together with an
    error. *)
Theorem isDirEmpty_iff_only_directories (n : Node) :
  fst (isDirEmpty n) = onlyDirectories n
  /\ fst (isDirEmpty n) && notNil (snd (isDirEmpty n)) = false.
Proof.
  pose proof (isDirEmpty_true n) as Hspec.
  destruct (isDirEmpty n) as [[|] [msg|]]; cbn [fst snd notNil andb];
    try contradiction; now rewrite Hspec.
Qed.

(** X12: the entries are read in order and the first one that is not a
    tree of directories decides.  Leading entries that are trees of
    directories are passed over; a first entry that is not a directory
    ends the reading with false and no error, whatever follows it, even
    a directory that cannot be read. *)
Theorem isDirEmpty_first_entry_decides
        (before after : list (string * Node)) :
  Forall (fun e => onlyDirectories (snd e) = true) before ->
  isDirEmpty (Dir (before ++ after)) = isDirEmpty (Dir after)
  /\ (forall name,
         isDirEmpty (Dir (before ++ (name, File) :: after))
         = (false, None)).
Proof.
  intros Hb.
  assert (Hskip : forall rest,
             isDirEmpty (Dir (before ++ rest)) = isDirEmpty (Dir rest)).
  { induction Hb as [|[name entry] more Hentry _ IH]; intros rest;
      [reflexivity|].
    change (((name, entry) :: more) ++ rest)%list
      with ((name, entry) :: (more ++ rest))%list.
    rewrite isDirEmpty_cons. cbn [snd] in Hentry.
    assert (Hdir : IsDir entry = true) by (now destruct entry).
    rewrite Hdir. cbn [negb].
    pose proof (isDirEmpty_true entry) as Hspec.
    destruct (isDirEmpty entry) as [[|] [msg|]]; try contradiction;
      try congruence.
    cbn [notNil orb negb]. apply IH. }
  split; [apply Hskip|]. intros name. rewrite Hskip. reflexivity.
Qed.

Section BootstrapFacts.

Context `{OS}.

(** X13: [InitBPFFSMaybe] makes no call, or the mount alone, or the
    mount followed by the creation of [tc/globals].  It never creates
    the directories without a mount that succeeded; a failed mount is
    reported and ends the bootstrap; a failed creation is reported with
    the mount left in place. *)
Theorem InitBPFFSMaybe_calls (k : Kernel) (fsPath : string) :
  let mount := EvMount "bpf" fsPath "bpf" in
  let globals := path_Join [fsPath; "tc"; "globals"] in
  let res := fst (InitBPFFSMaybe k fsPath) in
  let calls := snd (InitBPFFSMaybe k fsPath) in
  calls = []
  \/ (calls = [mount]
      /\ exists e, unix_Mount k "bpf" fsPath "bpf" = Some e
                   /\ res = Some ("mounting BPF file system failed: " ++ e))
  \/ (calls = [mount; EvMkdirAll globals]
      /\ unix_Mount k "bpf" fsPath "bpf" = None
      /\ res = match os_MkdirAll k globals with
               | Some e =>
                   Some ("making directory for tc globals pinning failed: "
                         ++ e)
               | None => None
               end).
Proof.
  cbv zeta. unfold InitBPFFSMaybe.
  destruct (os_Stat k fsPath) as [n|msg]; [|now left].
  destruct (IsDir n); cbn [negb]; [|now left].
  destruct (isDirEmpty n) as [[|] [msg|]]; cbn [negb]; try (now left).
  destruct (unix_Mount k "bpf" fsPath "bpf") as [e|].
  - right. left. split; [reflexivity|]. now exists e.
  - right. right.
    now destruct (os_MkdirAll k (path_Join [fsPath; "tc"; "globals"])).
Qed.

(** X14: on a directory that can be read throughout, the bootstrap
    succeeds exactly when the tree holds an entry that is not a
    directory (nothing is done then) or the mount and the creation of
    the directories both succeed. *)
Theorem InitBPFFSMaybe_succeeds_iff (k : Kernel) (fsPath : string)
        (n : Node) :
  os_Stat k fsPath = Ok n -> IsDir n = true -> readable n = true ->
  (fst (InitBPFFSMaybe k fsPath) = None
   <-> onlyDirectories n = false
       \/ (unix_Mount k "bpf" fsPath "bpf" = None
           /\ os_MkdirAll k (path_Join [fsPath; "tc"; "globals"]) = None)).
Proof.
  intros Hstat Hdir Hread. unfold InitBPFFSMaybe.
  rewrite Hstat, Hdir. cbn [negb].
  pose proof (isDirEmpty_true n) as Hspec.
  pose proof (isDirEmpty_readable n Hdir Hread) as Herr.
  destruct (isDirEmpty n) as [[|] err]; cbn [snd] in Herr; subst err;
    cbn [negb].
  - destruct (unix_Mount k "bpf" fsPath "bpf") as [e|]; cbn [fst].
    + split; [discriminate|]. intros [Hf|[Hm _]]; congruence.
    + destruct (os_MkdirAll k (path_Join [fsPath; "tc"; "globals"]));
        cbn [fst]; split; auto; try discriminate.
      intros [Hf|[_ Hm]]; congruence.
  - cbn [fst]. split; auto.
Qed.

End BootstrapFacts.

(** *** Addresses *)

Section AddressFacts.

Variable ParseIP : string -> option (list Z).

(** X15: [ipStrToPtr] fails with the text it was given when the text is
    no address.  For an address in the 16-byte form it never panics: an
    IPv4 address (IPv4-mapped prefix) comes back as twelve zero bytes
    followed by its four bytes, any other address as it was parsed. *)
Theorem ipStrToPtr_bytes (ipstr : string) :
  (ParseIP ipstr = None ->
   ipStrToPtr ParseIP ipstr = Failed ("error parse ip: " ++ ipstr))
  /\ (forall ip,
         ParseIP ipstr = Some ip -> List.length ip = 16 ->
         ipStrToPtr ParseIP ipstr
         = Returned (match To4 ip with
                     | Some _ => (repeat 0%Z 12 ++ skipn 12 ip)%list
                     | None => ip
                     end)).
Proof.
  unfold ipStrToPtr. split.
  - intros ->. reflexivity.
  - intros ip -> Hlen.
    do 16 (destruct ip as [|? ip]; [discriminate Hlen|]).
    destruct ip; [|discriminate Hlen].
    destruct (To4 _); reflexivity.
Qed.

End AddressFacts.

Import Model.

Lemma failing_flags_run_nothing_witness :
  execCalls (trace (snd (LoadAndAttachEbpfPrograms
                           [badFlags "mb_connect"; badFlags "mb_bind"]
                           cfg freshWorld))) = []
  /\ fst (LoadAndAttachEbpfPrograms
            [badFlags "mb_connect"; badFlags "mb_bind"] cfg freshWorld)
     <> None.
Proof.
  assert (Hall : Forall (fun p : Program =>
                           forall s, exists msg,
                               fst (ProgramFlags p s) = Err msg)
                        [badFlags "mb_connect"; badFlags "mb_bind"]).
  { repeat constructor; intros s; now exists "no cgroup2 mount". }
  destruct (failing_flags_run_nothing _ cfg freshWorld Hall)
    as (Hexec & _ & _ & Hres).
  split; [exact Hexec | apply Hres; discriminate].
Defined.

Lemma computed_flags_run_every_program_witness :
  execCalls (trace (snd (LoadAndAttachEbpfPrograms batch cfg freshWorld)))
  = ["/progs/mb_connect"; "/progs/fails"; "/progs/mb_bind"].
Proof.
  apply (computed_flags_run_every_program batch cfg freshWorld).
  repeat constructor; intros s; now exists ["--bpffs"; "/sys/fs/bpf"].
Defined.

Lemma isDirEmpty_first_entry_decides_witness :
  isDirEmpty (Dir [("tc", Dir [("globals", Dir [])]);
                   ("local_pod_ips", File);
                   ("lost+found", Unreadable "permission denied")])
  = (false, None).
Proof.
  apply (proj2 (isDirEmpty_first_entry_decides
                  [("tc", Dir [("globals", Dir [])])]
                  [("lost+found", Unreadable "permission denied")]
                  ltac:(repeat constructor))).
Defined.

Lemma InitBPFFSMaybe_succeeds_iff_witness :
  fst (InitBPFFSMaybe (kernelNoMkdir bootstrapped) "/sys/fs/bpf") <> None
  /\ fst (InitBPFFSMaybe (kernelNoMkdir pinned) "/sys/fs/bpf") = None.
Proof.
  split.
  - intros Hnil.
    apply (InitBPFFSMaybe_succeeds_iff
             (kernelNoMkdir bootstrapped) "/sys/fs/bpf" bootstrapped
             eq_refl eq_refl eq_refl) in Hnil.
    destruct Hnil as [Hfile | [_ Hmkdir]]; discriminate.
  - apply (InitBPFFSMaybe_succeeds_iff
             (kernelNoMkdir pinned) "/sys/fs/bpf" pinned
             eq_refl eq_refl eq_refl).
    left. reflexivity.
Defined.

Lemma ipStrToPtr_bytes_witness :
  ipStrToPtr parseSample "10.0.0.1"
  = Returned [0; 0; 0; 0; 0; 0; 0; 0; 0; 0; 0; 0; 10; 0; 0; 1]%Z
  /\ ipStrToPtr parseSample "fd00::1"
     = Returned [253; 0; 0; 0; 0; 0; 0; 0; 0; 0; 0; 0; 0; 0; 0; 1]%Z
  /\ ipStrToPtr parseSample "not an address"
     = Failed "error parse ip: not an address".
Proof.
  split; [|split].
  - exact (proj2 (ipStrToPtr_bytes parseSample "10.0.0.1") _
                 eq_refl eq_refl).
  - exact (proj2 (ipStrToPtr_bytes parseSample "fd00::1") _
                 eq_refl eq_refl).
  - exact (proj1 (ipStrToPtr_bytes parseSample "not an address") eq_refl).
Defined.

End EbpfExtra.

(** ** [Build] on the store: properties *)

Module TableStoreSpec.

Import Table TableStore.

Lemma bind_eq {A B} (m : St A) (k : A -> St B) (h : Heap) :
  bind m k h = k (fst (m h)) (snd (m h)).
Proof. unfold bind. now destruct (m h). Qed.

Lemma unchanged_refl (h : Heap) : unchanged h h.
Proof. split; [lia | reflexivity]. Qed.

Lemma unchanged_trans (h1 h2 h3 : Heap) :
  unchanged h1 h2 -> unchanged h2 h3 -> unchanged h1 h3.
Proof.
  intros [Hn1 Hc1] [Hn2 Hc2]. split; [lia|].
  intros a Ha. rewrite Hc2 by lia. now apply Hc1.
Qed.

Lemma local_nil (h0 h : Heap) : local h0 h nilSlice [].
Proof.
  unfold local, nilSlice; cbn. repeat split; try lia; reflexivity.
Qed.

Lemma local_len (h0 h : Heap) (s : Slice) (xs : list string) :
  local h0 h s xs -> List.length xs = len s.
Proof.
  intros (Hoff & Hlen & Hel & Hcap). subst xs. unfold elems.
  rewrite Hoff, skipn_0, length_firstn.
  destruct (Nat.eq_dec (cap s) 0) as [Hz|Hnz]; [lia|].
  destruct Hcap as (_ & _ & Harr); lia.
Qed.

(** A slice keeps its elements when its array is left alone. *)
Lemma local_kept (h0 h h' : Heap) (t : Slice) (xs : list string) :
  local h0 h t xs -> next h <= next h' ->
  (0 < cap t -> cells h' (array t) = cells h (array t)) ->
  local h0 h' t xs.
Proof.
  intros (Hoff & Hlen & Hel & Hcap) Hnext Hsame.
  destruct (Nat.eq_dec (cap t) 0) as [Hz|Hnz].
  - split; [assumption|]. split; [assumption|]. split; [|lia].
    subst xs. unfold elems. assert (len t = 0) as -> by lia. reflexivity.
  - assert (Hpos : 0 < cap t) by lia.
    destruct (Hcap Hpos) as (Hlo & Hhi & Harr).
    split; [assumption|]. split; [assumption|]. split.
    + subst xs. unfold elems. now rewrite Hsame.
    + intros _. rewrite Hsame by assumption. repeat split; lia.
Qed.

Lemma local_unchanged (h0 h h' : Heap) (t : Slice) (xs : list string) :
  local h0 h t xs -> unchanged h h' -> local h0 h' t xs.
Proof.
  intros Hloc [Hnext Hcells]. apply (local_kept h0 h); try assumption.
  intros Hpos. apply Hcells. now destruct Hloc as (_ & _ & _ & Hcap);
    destruct (Hcap Hpos) as (_ & ? & _).
Qed.

Lemma overwrite_length (arr : list string) (pos : nat) (xs : list string) :
  pos + List.length xs <= List.length arr ->
  List.length (overwrite arr pos xs) = List.length arr.
Proof.
  intros Hfit. unfold overwrite.
  rewrite !length_app, length_firstn, length_skipn. lia.
Qed.

Lemma overwrite_firstn (arr : list string) (pos : nat) (xs : list string) :
  pos <= List.length arr ->
  firstn (pos + List.length xs) (overwrite arr pos xs)
  = (firstn pos arr ++ xs)%list.
Proof.
  intros Hpos. unfold overwrite.
  assert (Hl : List.length (firstn pos arr) = pos)
    by (rewrite length_firstn; lia).
  rewrite firstn_app, Hl.
  rewrite firstn_all2 by lia.
  replace (pos + List.length xs - pos) with (List.length xs + 0) by lia.
  rewrite firstn_app_2. cbn. now rewrite app_nil_r.
Qed.

Section Facts.

Context `{Runtime}.

(** [append] on a slice that [Build] owns: the result holds the old
    elements and the new ones and is owned again; no array that was
    there before [Build] changes, and no other owned slice does. *)
Lemma appendS_local (h0 h : Heap) (s : Slice) (l xs : list string) :
  unchanged h0 h -> local h0 h s l ->
  local h0 (snd (appendS s xs h)) (fst (appendS s xs h)) (l ++ xs)
  /\ unchanged h0 (snd (appendS s xs h))
  /\ next h <= next (snd (appendS s xs h))
  /\ (forall t lt,
         local h0 h t lt -> apart s t ->
         local h0 (snd (appendS s xs h)) t lt
         /\ apart (fst (appendS s xs h)) t).
Proof.
  intros [Hn0 Hc0] Hloc.
  pose proof (local_len _ _ _ _ Hloc) as Hlen.
  destruct Hloc as (Hoff & Hle & Hel & Hcap).
  unfold appendS. destruct xs as [|x xs'].
  { cbn [fst snd]. rewrite app_nil_r.
    split; [now unfold local|]. split; [now split|]. split; [lia|].
    intros t lt Ht Hap. now split. }
  set (xs := x :: xs') in *.
  destruct (len s + List.length xs <=? cap s)%nat eqn:Hfit.
  - apply Nat.leb_le in Hfit.
    assert (Hpos : 0 < cap s) by (cbn in Hfit; lia).
    destruct (Hcap Hpos) as (Hlo & Hhi & Harr).
    cbn [fst snd].
    split; [|split; [|split]].
    + unfold local, elems, store. cbn [offset len cap array cells next].
      rewrite Nat.eqb_refl, Hoff, skipn_0. cbn [Nat.add].
      repeat split; try lia.
      * rewrite overwrite_firstn by lia. subst l. unfold elems.
        now rewrite Hoff, skipn_0.
      * rewrite overwrite_length; lia.
    + split; [cbn; lia|]. intros a Ha. unfold store. cbn [cells].
      destruct (Nat.eqb_spec a (array s)); [lia|]. now apply Hc0.
    + cbn. lia.
    + intros t lt Ht Hap. split.
      * apply (local_kept h0 h); [assumption | cbn; lia |].
        intros Hpt. unfold store. cbn [cells].
        destruct (Nat.eqb_spec (array t) (array s)) as [He|]; [|reflexivity].
        exfalso. now apply (Hap Hpos Hpt).
      * intros _ Hpt. cbn [array]. now apply Hap.
  - apply Nat.leb_gt in Hfit. unfold allocate. cbn [fst snd].
    split; [|split; [|split]].
    + unfold local, elems. cbn [offset len cap array cells next].
      rewrite Nat.eqb_refl, skipn_0.
      repeat split; try lia.
      * fold (elems h s). rewrite Hel.
        replace (len s + List.length xs)
          with (List.length (l ++ xs) + 0)
          by (rewrite length_app; lia).
        rewrite app_assoc, firstn_app_2. cbn. now rewrite app_nil_r.
      * fold (elems h s). rewrite Hel, !length_app, repeat_length. lia.
    + split; [cbn; lia|]. intros a Ha. cbn [cells].
      destruct (Nat.eqb_spec a (next h)); [lia|]. now apply Hc0.
    + cbn. lia.
    + intros t lt Ht Hap.
      assert (Hlt : 0 < cap t -> array t < next h).
      { intros Hpt. destruct Ht as (_ & _ & _ & Hct).
        now destruct (Hct Hpt) as (_ & ? & _). }
      split.
      * apply (local_kept h0 h); [assumption | cbn; lia |].
        intros Hpt. cbn [cells].
        destruct (Nat.eqb_spec (array t) (next h)); [|reflexivity].
        specialize (Hlt Hpt). lia.
      * intros _ Hpt. cbn [array]. specialize (Hlt Hpt). lia.
Qed.

Lemma apart_sym (s t : Slice) : apart s t -> apart t s.
Proof. intros Hap Ht Hs He. now apply (Hap Hs Ht). Qed.

Lemma sliceLit_local (h0 h : Heap) (xs : list string) :
  unchanged h0 h ->
  local h0 (snd (sliceLit xs h)) (fst (sliceLit xs h)) xs
  /\ unchanged h0 (snd (sliceLit xs h))
  /\ next h <= next (snd (sliceLit xs h))
  /\ (forall t lt,
         local h0 h t lt ->
         local h0 (snd (sliceLit xs h)) t lt
         /\ apart (fst (sliceLit xs h)) t).
Proof.
  intros [Hn0 Hc0]. unfold sliceLit, allocate. cbn [fst snd].
  split; [|split; [|split]].
  - unfold local, elems. cbn [offset len cap array cells next].
    rewrite Nat.eqb_refl, skipn_0, firstn_all. repeat split; lia.
  - split; [cbn; lia|]. intros a Ha. cbn [cells].
    destruct (Nat.eqb_spec a (next h)); [lia|]. now apply Hc0.
  - cbn. lia.
  - intros t lt Ht.
    assert (Hlt : 0 < cap t -> array t < next h).
    { intros Hpt. destruct Ht as (_ & _ & _ & Hct).
      now destruct (Hct Hpt) as (_ & ? & _). }
    split.
    + apply (local_kept h0 h); [assumption | cbn; lia |].
      intros Hpt. cbn [cells].
      destruct (Nat.eqb_spec (array t) (next h)); [|reflexivity].
      specialize (Hlt Hpt). lia.
    + intros _ Hpt. cbn [array]. specialize (Hlt Hpt). lia.
Qed.

Lemma headed_local (h0 h : Heap) (title : string) (s : Slice)
      (l : list string) :
  unchanged h0 h -> local h0 h s l ->
  local h0 (snd (headed title s h)) (fst (headed title s h))
        (if nonempty l then title :: l else l)
  /\ unchanged h0 (snd (headed title s h))
  /\ next h <= next (snd (headed title s h))
  /\ (forall t lt,
         local h0 h t lt -> apart s t ->
         local h0 (snd (headed title s h)) t lt
         /\ apart (fst (headed title s h)) t).
Proof.
  intros Hun Hloc. pose proof (local_len _ _ _ _ Hloc) as Hlen.
  unfold headed. destruct (0 <? len s)%nat eqn:Hpos.
  - apply Nat.ltb_lt in Hpos.
    assert (Hne : nonempty l = true) by (destruct l; cbn in *; [lia|easy]).
    rewrite Hne, !bind_eq. unfold readS. cbn [fst snd].
    destruct (sliceLit_local h0 h [title] Hun) as (Hlit & Hun1 & Hn1 & Hoth1).
    destruct (Hoth1 s l Hloc) as [Hs1 _].
    assert (Hel : elems (snd (sliceLit [title] h)) s = l)
      by now destruct Hs1 as (_ & _ & ? & _).
    rewrite Hel.
    destruct (appendS_local h0 _ _ [title] l Hun1 Hlit)
      as (Hres & Hun2 & Hn2 & Hoth2).
    split; [exact Hres|]. split; [exact Hun2|].
    split; [exact (Nat.le_trans _ _ _ Hn1 Hn2)|].
    intros t lt Ht _. destruct (Hoth1 t lt Ht) as [Ht1 Hap1].
    now apply Hoth2.
  - apply Nat.ltb_ge in Hpos.
    assert (Hnil : l = []) by (destruct l; cbn in *; [easy|lia]).
    subst l. cbn [nonempty ret fst snd].
    split; [exact Hloc|]. split; [exact Hun|]. split; [lia|].
    intros t lt Ht Hap. now split.
Qed.

Lemma appendText_local (h0 h : Heap) (s : Slice) (l : list string)
      (text : string) :
  unchanged h0 h -> local h0 h s l ->
  local h0 (snd (appendText s text h)) (fst (appendText s text h))
        (if String.eqb text "" then l else (l ++ [text])%list)
  /\ unchanged h0 (snd (appendText s text h))
  /\ next h <= next (snd (appendText s text h))
  /\ (forall t lt,
         local h0 h t lt -> apart s t ->
         local h0 (snd (appendText s text h)) t lt
         /\ apart (fst (appendText s text h)) t).
Proof.
  intros Hun Hloc. unfold appendText.
  destruct (String.eqb text "").
  - cbn [ret fst snd]. split; [exact Hloc|]. split; [exact Hun|].
    split; [lia|]. intros t lt Ht Hap. now split.
  - now apply appendS_local.
Qed.

Hypothesis pure : chainsArePure.

Lemma chain_BuildS_kept (h0 h : Heap) (c : ChainBuilder) (verbose : bool) :
  unchanged h0 h ->
  unchanged h0 (snd (chain_BuildS c verbose h))
  /\ (forall t lt, local h0 h t lt ->
                   local h0 (snd (chain_BuildS c verbose h)) t lt).
Proof.
  intros Hun. destruct (pure c verbose h) as [Hpure _]. split.
  - now apply (unchanged_trans h0 h).
  - intros t lt Ht. now apply (local_unchanged h0 h).
Qed.

(** The first loop on the store collects what the loop collects. *)
Lemma rangeChains_local (h0 : Heap) (verbose : bool)
      (cs : list ChainBuilder) :
  forall (h : Heap) (ruleLines : Slice) (rules : list string),
    unchanged h0 h -> local h0 h ruleLines rules ->
    local h0 (snd (rangeChains cs verbose ruleLines h))
          (fst (rangeChains cs verbose ruleLines h))
          (rules ++ flat_map (fun c => chain_Build c verbose) cs)
    /\ unchanged h0 (snd (rangeChains cs verbose ruleLines h)).
Proof.
  induction cs as [|c rest IH]; intros h ruleLines rules Hun Hloc.
  - cbn. now rewrite app_nil_r.
  - cbn [rangeChains flat_map]. rewrite !bind_eq.
    unfold readS. cbn [fst snd].
    destruct (chain_BuildS_kept h0 h c verbose Hun) as [Hun1 Hkept].
    destruct (pure c verbose h) as [_ Hel]. rewrite Hel.
    destruct (appendS_local h0 _ _ rules (chain_Build c verbose) Hun1
                            (Hkept _ _ Hloc)) as (Hloc2 & Hun2 & _).
    rewrite app_assoc. now apply IH.
Qed.

(** The second loop on the store, likewise, for both slices. *)
Lemma rangeNewChains_local (h0 : Heap) (verbose : bool)
      (cs : list ChainBuilder) :
  forall (h : Heap) (newChainLines ruleLines : Slice)
         (decls rules : list string),
    unchanged h0 h ->
    local h0 h newChainLines decls -> local h0 h ruleLines rules ->
    apart newChainLines ruleLines ->
    let r := rangeNewChains cs verbose newChainLines ruleLines h in
    local h0 (snd r) (fst (fst r))
          (decls ++ map (newChainLine verbose) cs)
    /\ local h0 (snd r) (snd (fst r))
             (rules ++ flat_map (fun c => chain_Build c verbose) cs)
    /\ apart (fst (fst r)) (snd (fst r))
    /\ unchanged h0 (snd r).
Proof.
  induction cs as [|c rest IH];
    intros h newChainLines ruleLines decls rules Hun Hd Hr Hap.
  - cbn. now rewrite !app_nil_r.
  - cbn [rangeNewChains flat_map map]. cbv zeta. rewrite !bind_eq.
    unfold readS. cbn [fst snd].
    destruct (appendS_local h0 h _ decls [newChainLine verbose c] Hun Hd)
      as (Hd1 & Hun1 & _ & Hoth1).
    destruct (Hoth1 _ _ Hr Hap) as [Hr1 Hap1].
    set (h1 := snd (appendS newChainLines [newChainLine verbose c] h))
      in *.
    set (d1 := fst (appendS newChainLines [newChainLine verbose c] h))
      in *.
    destruct (chain_BuildS_kept h0 h1 c verbose Hun1) as [Hun2 Hkept].
    destruct (pure c verbose h1) as [_ Hel]. rewrite Hel.
    destruct (appendS_local h0 _ _ rules (chain_Build c verbose) Hun2
                            (Hkept _ _ Hr1)) as (Hr3 & Hun3 & _ & Hoth3).
    destruct (Hoth3 _ _ (Hkept _ _ Hd1) (apart_sym _ _ Hap1))
      as [Hd3 Hap3].
    change (newChainLine verbose c :: map (newChainLine verbose) rest)
      with ([newChainLine verbose c]
              ++ map (newChainLine verbose) rest)%list.
    rewrite !app_assoc.
    apply IH; try assumption. now apply apart_sym.
Qed.

Lemma maybeHeaded_local (h0 h : Heap) (verbose : bool) (title : string)
      (s : Slice) (l : list string) :
  let m := if verbose then headed title s else ret s in
  unchanged h0 h -> local h0 h s l ->
  local h0 (snd (m h)) (fst (m h))
        (if verbose && nonempty l then title :: l else l)
  /\ unchanged h0 (snd (m h))
  /\ next h <= next (snd (m h))
  /\ (forall t lt,
         local h0 h t lt -> apart s t ->
         local h0 (snd (m h)) t lt /\ apart (fst (m h)) t).
Proof.
  cbv zeta. intros Hun Hloc. destruct verbose; cbn [andb].
  - now apply headed_local.
  - cbn [ret fst snd]. split; [exact Hloc|]. split; [exact Hun|].
    split; [lia|]. intros t lt Ht Hap. now split.
Qed.

Lemma apart_nil (s : Slice) : apart nilSlice s.
Proof. intros Hpos. cbn in Hpos. lia. Qed.

(** [Build] on the store returns what [Build] as a function of the table
    and the mode returns, and changes no array that was there before. *)
Lemma TableBuilder_BuildS_spec (b : TableBuilder) (verbose : bool)
      (h : Heap) :
  fst (TableBuilder_BuildS b verbose h) = TableBuilder_Build b verbose
  /\ unchanged h (snd (TableBuilder_BuildS b verbose h)).
Proof.
  unfold TableBuilder_BuildS, TableBuilder_Build.
  rewrite TableSpec.collectLines_eq. cbv [bind readS].
  (* the first loop *)
  pose proof (rangeChains_local h verbose (chains b) h nilSlice []
                (unchanged_refl h) (local_nil h h)) as (Hr1 & Hun1).
  destruct (rangeChains (chains b) verbose nilSlice h) as [rl1 h1].
  cbn [fst snd app] in Hr1, Hun1.
  (* the second loop *)
  pose proof (rangeNewChains_local h verbose (newChains b) h1 nilSlice rl1
                [] _ Hun1 (local_nil h h1) Hr1 (apart_nil rl1))
    as (Hd2 & Hr2 & Hap2 & Hun2).
  destruct (rangeNewChains (newChains b) verbose nilSlice rl1 h1)
    as [[d2 r2] h2].
  cbn [fst snd app] in Hd2, Hr2, Hap2, Hun2.
  set (D := map (newChainLine verbose) (newChains b)) in *.
  set (R := (flat_map (fun c => chain_Build c verbose) (chains b)
               ++ flat_map (fun c => chain_Build c verbose)
                           (newChains b))%list) in *.
  (* the comment lines of verbose mode *)
  pose proof (maybeHeaded_local h h2 verbose "# Custom Chains:" d2 D
                Hun2 Hd2) as (Hd3 & Hun3 & _ & Hoth3).
  destruct (Hoth3 _ _ Hr2 Hap2) as [Hr3 Hap3].
  destruct ((if verbose then headed "# Custom Chains:" d2 else ret d2) h2)
    as [d3 h3].
  cbn [fst snd] in Hd3, Hun3, Hr3, Hap3. clear Hoth3.
  pose proof (maybeHeaded_local h h3 verbose "# Rules:" r2 R Hun3 Hr3)
    as (Hr4 & Hun4 & _ & Hoth4).
  destruct (Hoth4 _ _ Hd3 (apart_sym _ _ Hap3)) as [Hd4 Hap4].
  destruct ((if verbose then headed "# Rules:" r2 else ret r2) h3)
    as [r4 h4].
  cbn [fst snd] in Hr4, Hun4, Hd4, Hap4. clear Hoth4.
  (* the lines *)
  pose proof (sliceLit_local h h4 ["* " ++ name b] Hun4)
    as (Hl5 & Hun5 & _ & Hoth5).
  destruct (Hoth5 _ _ Hd4) as [Hd5 Hapd5].
  destruct (Hoth5 _ _ Hr4) as [Hr5 Hapr5].
  destruct (sliceLit ["* " ++ name b] h4) as [l5 h5].
  cbn [fst snd] in Hl5, Hun5, Hd5, Hapd5, Hr5, Hapr5. clear Hoth5.
  cbv beta iota.
  assert (Hed : elems h5 d3
                = if verbose && nonempty D then "# Custom Chains:" :: D
                  else D) by now destruct Hd5 as (_ & _ & ? & _).
  rewrite Hed.
  set (D' := if verbose && nonempty D then "# Custom Chains:" :: D else D)
    in *.
  pose proof (appendText_local h h5 l5 _ (Join D' nl) Hun5 Hl5)
    as (Hl6 & Hun6 & _ & Hoth6).
  destruct (Hoth6 _ _ Hr5 Hapr5) as [Hr6 Hapr6].
  destruct (appendText l5 (Join D' nl) h5) as [l6 h6].
  cbn [fst snd] in Hl6, Hun6, Hr6, Hapr6. clear Hoth6.
  cbv beta iota.
  assert (Her : elems h6 r4
                = if verbose && nonempty R then "# Rules:" :: R else R)
    by now destruct Hr6 as (_ & _ & ? & _).
  rewrite Her.
  set (R' := if verbose && nonempty R then "# Rules:" :: R else R) in *.
  pose proof (appendText_local h h6 l6 _ (Join R' nl) Hun6 Hl6)
    as (Hl7 & Hun7 & _ & _).
  destruct (appendText l6 (Join R' nl) h6) as [l7 h7].
  cbn [fst snd] in Hl7, Hun7.
  pose proof (appendS_local h h7 l7 _ ["COMMIT"] Hun7 Hl7)
    as (Hl8 & Hun8 & _ & _).
  destruct (appendS l7 ["COMMIT"] h7) as [l8 h8].
  cbn [fst snd] in Hl8, Hun8.
  unfold ret. cbn [fst snd].
  split; [|exact Hun8].
  destruct Hl8 as (_ & _ & -> & _).
  unfold assemble. fold D' R'.
  destruct (String.eqb (Join D' nl) ""), (String.eqb (Join R' nl) "");
    reflexivity.
Qed.


End Facts.

Import Model.

(** [append] does write into an array that exists when the slice has
    room: the store can tell a [Build] that changes its table from one
    that does not. *)
Lemma appendS_writes_in_place :
  TableStore.cells
    (snd (appendS (mkSlice 0 0 1 2) ["x"] someStore)) 0 = ["kept"; "x"]
  /\ ~ unchanged someStore
        (snd (appendS (mkSlice 0 0 1 2) ["x"] someStore)).
Proof.
  split; [reflexivity|]. intros [_ Hsame].
  specialize (Hsame 0 ltac:(cbn; lia)). discriminate Hsame.
Qed.

Lemma freshArrays_pure : chainsArePure.
Proof.
  intros c verbose h. cbn. split.
  - split; [cbn; lia|]. intros a Ha. cbn.
    destruct (Nat.eqb_spec a (next h)); [lia | reflexivity].
  - unfold elems. cbn. rewrite Nat.eqb_refl.
    rewrite firstn_app, firstn_all, Nat.sub_diag. cbn.
    now rewrite app_nil_r.
Qed.


End TableStoreSpec.
